(** * dbratelimit: a rate-limited facade over a database handle

    A shallow embedding of [main.go] (package [dbratelimit]) and the
    properties of its admission gate.

    The package composes two collaborators that live outside the
    repository: a [*sql.DB] connection handle and a [*rate.Limiter] token
    bucket.  Both are taken as interfaces (type classes) here, so that the
    theorems about the facade hold for every implementation of them.  Go
    pointers are addresses into heaps, Go's [(value, error)] results are
    pairs of options, and the methods run in a small state monad over the
    heaps, the clock and the logs of the calls the collaborators received. *)

From Stdlib Require Import ZArith QArith Qminmax Lqa Lia List String Bool.
From stdpp Require Import base option gmap.
Import ListNotations.

Open Scope nat_scope.

(** ** Errors, contexts, arguments *)

(** Go's [error] values.  [Canceled] and [DeadlineExceeded] are the two
    errors of package [context]; every other error is an opaque message. *)
Inductive error : Type :=
  | Canceled
  | DeadlineExceeded
  | errorString (msg : string).

(** Time, in seconds. *)
Definition Time : Type := Q.

(** A [context.Context]: its deadline, if it has one, and the instant at
    which its cancel function is called, if it ever is. *)
Record Context : Type := mkContext {
  ctx_deadline : option Time;
  ctx_cancel : option Time
}.

Definition Background : Context := mkContext None None.
Definition WithDeadline (d : Time) : Context := mkContext (Some d) None.
Definition WithCancelAt (c : Time) : Context := mkContext None (Some c).

(** The instant at which the context's [Done] channel closes, with the
    error [Err] reports from then on: the earlier of cancellation and
    deadline. *)
Definition ctx_signal (ctx : Context) : option (Time * error) :=
  match ctx_cancel ctx, ctx_deadline ctx with
  | None, None => None
  | Some c, None => Some (c, Canceled)
  | None, Some d => Some (d, DeadlineExceeded)
  | Some c, Some d =>
      if Qle_bool c d then Some (c, Canceled) else Some (d, DeadlineExceeded)
  end.

(** [ctx.Err()] read at time [now]. *)
Definition ctx_Err (ctx : Context) (now : Time) : option error :=
  match ctx_signal ctx with
  | Some (s, e) => if Qle_bool s now then Some e else None
  | None => None
  end.

(** The values of Go's [any] that are bound to a statement. *)
Inductive any : Type :=
  | AnyNil
  | AnyInt (n : Z)
  | AnyString (s : string)
  | AnyBool (b : bool).

(** Pointers are addresses; address [0] is [nil] and is never allocated. *)
Definition ptr : Type := nat.
Definition nil_ptr : ptr := 0.

(** [rate.Limit]: events per second, or [rate.Inf]. *)
Inductive Limit : Type :=
  | Inf
  | PerSecond (r : Q).

(** ** The collaborators *)

(** [*rate.Limiter].  [Limiter_Wait l ctx now] is [l.Wait(ctx)] called at
    time [now]: [None] when the call never returns, otherwise the error it
    returns ([None] for [nil]), the time at which it returns and the
    limiter afterwards. *)
Class RateLimiter : Type := {
  rate_Limiter : Type;
  rate_NewLimiter : Limit -> Z -> rate_Limiter;
  Limiter_Wait :
    rate_Limiter -> Context -> Time -> option (option error * Time * rate_Limiter)
}.

(** [*sql.DB] and the handles it gives out.  Every operation receives the
    state of the connection object and the current time and returns the
    Go result with the state afterwards.  [Row_Scan] is the error
    that [Scan] reports on a row. *)
Class SqlDB : Type := {
  sql_DB : Type;
  sql_Rows : Type;
  sql_Row : Type;
  sql_Result : Type;
  sql_Stmt : Type;
  sql_Conn : Type;
  DB_QueryContext :
    sql_DB -> Time -> Context -> string -> list any ->
    (option sql_Rows * option error) * sql_DB;
  DB_QueryRowContext :
    sql_DB -> Time -> Context -> string -> list any -> sql_Row * sql_DB;
  DB_ExecContext :
    sql_DB -> Time -> Context -> string -> list any ->
    (option sql_Result * option error) * sql_DB;
  DB_PrepareContext :
    sql_DB -> Time -> Context -> string ->
    (option sql_Stmt * option error) * sql_DB;
  DB_Close : sql_DB -> Time -> option error * sql_DB;
  DB_Ping : sql_DB -> Time -> option error * sql_DB;
  DB_Conn :
    sql_DB -> Time -> Context -> (option sql_Conn * option error) * sql_DB;
  Row_Scan : sql_Row -> option error
}.

(** The calls a connection object can receive, with their arguments. *)
Inductive DBCall : Type :=
  | CallQuery (ctx : Context) (query : string) (args : list any)
  | CallQueryRow (ctx : Context) (query : string) (args : list any)
  | CallExec (ctx : Context) (query : string) (args : list any)
  | CallPrepare (ctx : Context) (query : string)
  | CallClose
  | CallPing
  | CallConn (ctx : Context).

(** One [Wait] received by a limiter: which limiter, with which context,
    and what it answered. *)
Record WaitCall : Type := mkWaitCall {
  wait_on : ptr;
  wait_ctx : Context;
  wait_err : option error
}.

(** The facade of [main.go]: two pointers. *)
Record RateLimitedDB : Type := mkRateLimitedDB {
  db : ptr;
  limiter : ptr
}.

(** ** The world the facade runs in *)

Section World.
Context {RL : RateLimiter} {SQL : SqlDB}.

(** The clock, the three heaps ([sql.DB] objects, limiters, facades) and
    the two logs: every call received by a connection object and every
    [Wait] received by a limiter, oldest first. *)
Record World : Type := mkWorld {
  now : Time;
  sqlDBs : gmap ptr sql_DB;
  limiters : gmap ptr rate_Limiter;
  facades : gmap ptr RateLimitedDB;
  db_calls : list (ptr * DBCall);
  lim_calls : list WaitCall
}.

(** The outcome of running a method: it returns, it panics (a nil or
    dangling pointer is dereferenced) or it never returns. *)
Inductive Res (A : Type) : Type :=
  | Ok (a : A) (w : World)
  | Panic
  | Hang.
Global Arguments Ok {A} a w.
Global Arguments Panic {A}.
Global Arguments Hang {A}.

Definition M (A : Type) : Type := World -> Res A.

Global Instance M_ret : MRet M := fun A a w => Ok a w.
Global Instance M_bind : MBind M := fun A B k m w =>
  match m w with
  | Ok a w' => k a w'
  | Panic => Panic
  | Hang => Hang
  end.

Global Instance M_fmap : FMap M := fun A B g m w =>
  match m w with
  | Ok a w' => Ok (g a) w'
  | Panic => Panic
  | Hang => Hang
  end.

(** Allocation picks an address that is neither [nil] nor in use. *)
Definition fresh_ptr {A : Type} (h : gmap ptr A) : ptr :=
  fresh ({[nil_ptr]} ∪ dom h).

(** *** What the collaborators do to the world *)

(** [rate.NewLimiter(limit, burst)]: a new limiter object. *)
Definition rate_NewLimiter_at (limit : Limit) (burst : Z) : M ptr := fun w =>
  let l := fresh_ptr (limiters w) in
  Ok l (mkWorld (now w) (sqlDBs w)
          (<[l := rate_NewLimiter limit burst]> (limiters w))
          (facades w) (db_calls w) (lim_calls w)).

(** [l.Wait(ctx)] on the limiter at address [l]: the limiter decides, the
    clock moves to the instant the call returns, the call is logged. *)
Definition limiter_Wait (l : ptr) (ctx : Context) : M (option error) := fun w =>
  match limiters w !! l with
  | None => Panic
  | Some lim =>
      match Limiter_Wait lim ctx (now w) with
      | None => Hang
      | Some (err, t, lim') =>
          Ok err (mkWorld t (sqlDBs w) (<[l := lim']> (limiters w))
                    (facades w) (db_calls w)
                    (lim_calls w ++ [mkWaitCall l ctx err]))
      end
  end.

(** The world once the connection object at [d] has answered the call
    [c] and is left in state [s']: only that object and the log of calls
    change. *)
Definition after_call (d : ptr) (c : DBCall) (s' : sql_DB) (w : World) : World :=
  mkWorld (now w) (<[d := s']> (sqlDBs w)) (limiters w)
    (facades w) (db_calls w ++ [(d, c)]) (lim_calls w).

(** A call on the connection object at address [d]: the object answers,
    its state is updated, the call is logged. *)
Definition sqlDB_call {A : Type} (d : ptr) (c : DBCall)
    (op : sql_DB -> Time -> A * sql_DB) : M A := fun w =>
  match sqlDBs w !! d with
  | None => Panic
  | Some s => Ok (op s (now w)).1 (after_call d c (op s (now w)).2 w)
  end.

(** Nothing of the limiters has changed between [w] and [w']: their
    states, the requests they received, and the clock (nobody slept). *)
Definition limiter_untouched (w w' : World) : Prop :=
  limiters w' = limiters w /\ lim_calls w' = lim_calls w /\ now w' = now w.

Definition sqlDB_QueryContext (d : ptr) (ctx : Context) (query : string)
    (args : list any) : M (option sql_Rows * option error) :=
  sqlDB_call d (CallQuery ctx query args)
    (fun s t => DB_QueryContext s t ctx query args).

Definition sqlDB_QueryRowContext (d : ptr) (ctx : Context) (query : string)
    (args : list any) : M sql_Row :=
  sqlDB_call d (CallQueryRow ctx query args)
    (fun s t => DB_QueryRowContext s t ctx query args).

Definition sqlDB_ExecContext (d : ptr) (ctx : Context) (query : string)
    (args : list any) : M (option sql_Result * option error) :=
  sqlDB_call d (CallExec ctx query args)
    (fun s t => DB_ExecContext s t ctx query args).

Definition sqlDB_PrepareContext (d : ptr) (ctx : Context) (query : string)
    : M (option sql_Stmt * option error) :=
  sqlDB_call d (CallPrepare ctx query)
    (fun s t => DB_PrepareContext s t ctx query).

Definition sqlDB_Close (d : ptr) : M (option error) :=
  sqlDB_call d CallClose DB_Close.

Definition sqlDB_Ping (d : ptr) : M (option error) :=
  sqlDB_call d CallPing DB_Ping.

Definition sqlDB_Conn (d : ptr) (ctx : Context)
    : M (option sql_Conn * option error) :=
  sqlDB_call d (CallConn ctx) (fun s t => DB_Conn s t ctx).

(** *** main.go *)

(** [&RateLimitedDB{...}]: a new facade object. *)
Definition new_RateLimitedDB (f : RateLimitedDB) : M ptr := fun w =>
  let r := fresh_ptr (facades w) in
  Ok r (mkWorld (now w) (sqlDBs w) (limiters w) (<[r := f]> (facades w))
          (db_calls w) (lim_calls w)).

(** Reading the fields of [r]; a nil or dangling [r] panics. *)
Definition load (r : ptr) : M RateLimitedDB := fun w =>
  match facades w !! r with
  | Some f => Ok f w
  | None => Panic
  end.

Definition Wrap (db : ptr) (limit : Limit) (burst : Z) : M ptr :=
  l ← rate_NewLimiter_at limit burst;
  new_RateLimitedDB {| db := db; limiter := l |}.

(** wait blocks until limiter allows or ctx cancels *)
Definition wait (r : ptr) (ctx : Context) : M (option error) :=
  f ← load r;
  limiter_Wait (limiter f) ctx.

Definition QueryContext (r : ptr) (ctx : Context) (query : string)
    (args : list any) : M (option sql_Rows * option error) :=
  err ← wait r ctx;
  match err with
  | Some e => mret (None, Some e)
  | None => f ← load r; sqlDB_QueryContext (db f) ctx query args
  end.

Definition QueryRowContext (r : ptr) (ctx : Context) (query : string)
    (args : list any) : M sql_Row :=
  _ ← wait r ctx;
  f ← load r;
  sqlDB_QueryRowContext (db f) ctx query args.

Definition ExecContext (r : ptr) (ctx : Context) (query : string)
    (args : list any) : M (option sql_Result * option error) :=
  err ← wait r ctx;
  match err with
  | Some e => mret (None, Some e)
  | None => f ← load r; sqlDB_ExecContext (db f) ctx query args
  end.

Definition PrepareContext (r : ptr) (ctx : Context) (query : string)
    : M (option sql_Stmt * option error) :=
  err ← wait r ctx;
  match err with
  | Some e => mret (None, Some e)
  | None => f ← load r; sqlDB_PrepareContext (db f) ctx query
  end.

Definition Close (r : ptr) : M (option error) :=
  f ← load r; sqlDB_Close (db f).

Definition Ping (r : ptr) : M (option error) :=
  f ← load r; sqlDB_Ping (db f).

Definition Conn (r : ptr) (ctx : Context)
    : M (option sql_Conn * option error) :=
  f ← load r; sqlDB_Conn (db f) ctx.

Definition Raw (r : ptr) : M ptr :=
  f ← load r; mret (db f).

End World.

(** ** Sequences of operations on one facade *)

Section Operations.
Context {RL : RateLimiter} {SQL : SqlDB}.

(** What a client can do with a facade [r]: call one of its methods, or
    take the handle [r.Raw()] returns and call the connection directly. *)
Inductive Op : Type :=
  | OpQueryContext (ctx : Context) (query : string) (args : list any)
  | OpQueryRowContext (ctx : Context) (query : string) (args : list any)
  | OpExecContext (ctx : Context) (query : string) (args : list any)
  | OpPrepareContext (ctx : Context) (query : string)
  | OpClose
  | OpPing
  | OpConn (ctx : Context)
  | OpRaw
  | OpOnRaw (c : DBCall).

(** The value an operation returns. *)
Inductive Ret : Type :=
  | RetRows (x : option sql_Rows * option error)
  | RetRow (x : sql_Row)
  | RetResult (x : option sql_Result * option error)
  | RetStmt (x : option sql_Stmt * option error)
  | RetError (x : option error)
  | RetConn (x : option sql_Conn * option error)
  | RetDB (x : ptr).

(** The four methods that go through [wait]. *)
Definition gated (o : Op) : bool :=
  match o with
  | OpQueryContext _ _ _ | OpQueryRowContext _ _ _
  | OpExecContext _ _ _ | OpPrepareContext _ _ => true
  | _ => false
  end.

(** A call made directly on the connection object at [d]. *)
Definition direct (d : ptr) (c : DBCall) : M Ret :=
  match c with
  | CallQuery ctx q args => RetRows <$> sqlDB_QueryContext d ctx q args
  | CallQueryRow ctx q args => RetRow <$> sqlDB_QueryRowContext d ctx q args
  | CallExec ctx q args => RetResult <$> sqlDB_ExecContext d ctx q args
  | CallPrepare ctx q => RetStmt <$> sqlDB_PrepareContext d ctx q
  | CallClose => RetError <$> sqlDB_Close d
  | CallPing => RetError <$> sqlDB_Ping d
  | CallConn ctx => RetConn <$> sqlDB_Conn d ctx
  end.

Definition run_op (r : ptr) (o : Op) : M Ret :=
  match o with
  | OpQueryContext ctx q args => RetRows <$> QueryContext r ctx q args
  | OpQueryRowContext ctx q args => RetRow <$> QueryRowContext r ctx q args
  | OpExecContext ctx q args => RetResult <$> ExecContext r ctx q args
  | OpPrepareContext ctx q => RetStmt <$> PrepareContext r ctx q
  | OpClose => RetError <$> Close r
  | OpPing => RetError <$> Ping r
  | OpConn ctx => RetConn <$> Conn r ctx
  | OpRaw => RetDB <$> Raw r
  | OpOnRaw c => d ← Raw r; direct d c
  end.

Fixpoint run_ops (r : ptr) (os : list Op) : M (list Ret) :=
  match os with
  | [] => mret []
  | o :: os' => x ← run_op r o; xs ← run_ops r os'; mret (x :: xs)
  end.

(** The [Wait] calls limiter [l] has received, and those it granted:
    each granted call hands out one token. *)
Definition requests (l : ptr) (w : World) : list WaitCall :=
  filter (fun c => wait_on c = l) (lim_calls w).

Definition granted (c : WaitCall) : bool :=
  match wait_err c with None => true | Some _ => false end.

Definition tokens_consumed (l : ptr) (w : World) : nat :=
  length (filter (fun c => granted c = true) (requests l w)).

(** Between [w] and [w'] the limiter of [f] received one more request,
    with the context [ctx], and no facade object changed. *)
Definition one_request (f : RateLimitedDB) (ctx : Context) (w w' : World) : Prop :=
  facades w' = facades w /\
  exists err, lim_calls w' = lim_calls w ++ [mkWaitCall (limiter f) ctx err].

(** *** What a sequence of operations writes to the two logs *)

(** The call an operation makes on the connection object when it gets
    that far; [Raw] makes none. *)
Definition op_call (o : Op) : option DBCall :=
  match o with
  | OpQueryContext ctx q args => Some (CallQuery ctx q args)
  | OpQueryRowContext ctx q args => Some (CallQueryRow ctx q args)
  | OpExecContext ctx q args => Some (CallExec ctx q args)
  | OpPrepareContext ctx q => Some (CallPrepare ctx q)
  | OpClose => Some CallClose
  | OpPing => Some CallPing
  | OpConn ctx => Some (CallConn ctx)
  | OpRaw => None
  | OpOnRaw c => Some c
  end.

(** The context a gated operation hands to [wait]. *)
Definition op_ctx (o : Op) : Context :=
  match o with
  | OpQueryContext ctx _ _ | OpQueryRowContext ctx _ _
  | OpExecContext ctx _ _ | OpPrepareContext ctx _ | OpConn ctx => ctx
  | _ => Background
  end.

(** The three methods that test the error of [wait] and return it. *)
Definition returns_wait_error (o : Op) : bool :=
  match o with
  | OpQueryContext _ _ _ | OpExecContext _ _ _ | OpPrepareContext _ _ => true
  | _ => false
  end.

(** The requests and the calls one operation on a facade [f] adds to the
    logs, when its [Wait] (if it makes one) answers [err]. *)
Definition expected_waits (f : RateLimitedDB) (o : Op) (err : option error)
    : list WaitCall :=
  if gated o then [mkWaitCall (limiter f) (op_ctx o) err] else [].

Definition expected_calls (f : RateLimitedDB) (o : Op) (err : option error)
    : list (ptr * DBCall) :=
  match op_call o with
  | None => []
  | Some c =>
      if returns_wait_error o
      then match err with Some _ => [] | None => [(db f, c)] end
      else [(db f, c)]
  end.

Fixpoint waits_of (f : RateLimitedDB) (os : list Op) (errs : list (option error))
    : list WaitCall :=
  match os, errs with
  | o :: os', e :: errs' => expected_waits f o e ++ waits_of f os' errs'
  | _, _ => []
  end.

Fixpoint calls_of (f : RateLimitedDB) (os : list Op) (errs : list (option error))
    : list (ptr * DBCall) :=
  match os, errs with
  | o :: os', e :: errs' => expected_calls f o e ++ calls_of f os' errs'
  | _, _ => []
  end.

(** Between [w] and [w'] the logs grew by [ws] and [cs], and nothing
    moved but the connection object and the limiter of [f] (and the
    clock): no facade changed, no other connection object or limiter
    changed, none was allocated or freed. *)
Definition effect (f : RateLimitedDB) (ws : list WaitCall)
    (cs : list (ptr * DBCall)) (w w' : World) : Prop :=
  lim_calls w' = lim_calls w ++ ws /\
  db_calls w' = db_calls w ++ cs /\
  facades w' = facades w /\
  (forall d', d' <> db f -> sqlDBs w' !! d' = sqlDBs w !! d') /\
  (forall l', l' <> limiter f -> limiters w' !! l' = limiters w !! l') /\
  dom (sqlDBs w') = dom (sqlDBs w) /\
  dom (limiters w') = dom (limiters w).

(** The calls that carry a statement to the connection and are made only
    once [wait] returned no error; the single-row query. *)
Definition checked_call (c : DBCall) : bool :=
  match c with
  | CallQuery _ _ _ | CallExec _ _ _ | CallPrepare _ _ => true
  | _ => false
  end.

Definition row_call (c : DBCall) : bool :=
  match c with
  | CallQueryRow _ _ _ => true
  | _ => false
  end.

(** The operations other than [QueryRowContext] and the calls on the raw
    handle. *)
Definition checked_or_ungated (o : Op) : bool :=
  match o with
  | OpQueryRowContext _ _ _ | OpOnRaw _ => false
  | _ => true
  end.

(** What a sequence of operations asks of a limiter that is in state [b]
    at time [t]: one [Wait] for each gated operation, in order, each with
    the operation's context and at the instant the previous one returned;
    nothing for the others.  The result is the limiter and the time
    afterwards, if every [Wait] returns. *)
Fixpoint limiter_replay (b : rate_Limiter) (t : Time) (os : list Op)
    : option (rate_Limiter * Time) :=
  match os with
  | [] => Some (b, t)
  | o :: os' =>
      if gated o
      then match Limiter_Wait b (op_ctx o) t with
           | Some (_, t', b') => limiter_replay b' t' os'
           | None => None
           end
      else limiter_replay b t os'
  end.

End Operations.

(** ** A token bucket *)

Module TokenBucket.

(** Modelled from the spec: the token-bucket limiter
    ([golang.org/x/time/rate], which is not part of the repository).
    Tokens accrue continuously at [limit] per second and are capped at
    [burst]; [tokens] is the balance at time [last]. *)
Record Limiter : Type := mkLimiter {
  limit : Limit;
  burst : Z;
  tokens : Q;
  last : Time
}.

(** Modelled from the spec: a limiter is created once, with a full
    bucket (a cold start); nothing is validated. *)
Definition NewLimiter (limit : Limit) (burst : Z) : Limiter :=
  mkLimiter limit burst (inject_Z burst) 0%Q.

(** Modelled from the spec: the balance at time [now], for the rate [r]:
    what has accrued since [last], capped at [burst]. *)
Definition refill (b : Limiter) (r : Q) (now : Time) : Q :=
  Qmin (inject_Z (burst b)) (tokens b + Qmax 0 (now - last b) * r)%Q.

Definition set_balance (b : Limiter) (tk : Q) (t : Time) : Limiter :=
  mkLimiter (limit b) (burst b) tk t.

(** Modelled from the spec: the instant at which a whole token will be
    in the bucket, when the balance at [now] is [tk < 1]; never, when
    the bucket cannot hold one or nothing accrues. *)
Definition ready_at (b : Limiter) (r : Q) (tk : Q) (now : Time) : option Time :=
  if Qle_bool 1 (inject_Z (burst b)) && negb (Qle_bool r 0)
  then Some (now + (1 - tk) / r)%Q
  else None.

(** The acquire fails at the instant the signal fires, or at once when
    it has fired already; no token is taken. *)
Definition deny (b : Limiter) (r : Q) (now s : Time) (e : error)
    : option (option error * Time * Limiter) :=
  let tf := Qmax now s in
  Some (Some e, tf, set_balance b (refill b r tf) tf).

(** Modelled from the spec: acquire one token (section 4.1).  With a
    token available the caller receives it immediately and the balance
    drops by one; an unlimited rate always succeeds immediately;
    otherwise the caller is suspended until a token has accrued or the
    context's signal fires, whichever comes first, and fails exactly
    when the signal fires strictly before the token is available, with
    the signal's reason.  Without a signal and without a token ever
    coming the call never returns. *)
Definition Wait (b : Limiter) (ctx : Context) (now : Time)
    : option (option error * Time * Limiter) :=
  match limit b with
  | Inf => Some (None, now, b)
  | PerSecond r =>
      let tk := refill b r now in
      if Qle_bool 1 tk then Some (None, now, set_balance b (tk - 1)%Q now)
      else
        match ready_at b r tk now, ctx_signal ctx with
        | Some t, None => Some (None, t, set_balance b 0%Q t)
        | Some t, Some (s, e) =>
            if Qle_bool t s then Some (None, t, set_balance b 0%Q t)
            else deny b r now s e
        | None, Some (s, e) => deny b r now s e
        | None, None => None
        end
  end.

Definition limiter : RateLimiter :=
  {| rate_Limiter := Limiter;
     rate_NewLimiter := NewLimiter;
     Limiter_Wait := Wait |}.

(** [n] acquires in a row at the same instant [now], none of them with
    a signal: the results, oldest first, and the limiter afterwards. *)
Fixpoint Wait_times (n : nat) (b : Limiter) (now : Time)
    : option (list (option error * Time) * Limiter) :=
  match n with
  | O => Some ([], b)
  | S n' =>
      match Wait b Background now with
      | None => None
      | Some (e, t, b') =>
          match Wait_times n' b' now with
          | None => None
          | Some (rs, b'') => Some ((e, t) :: rs, b'')
          end
      end
  end.

End TokenBucket.

(** ** A limiter that does not sleep towards a deadline it cannot meet *)

Module EagerBucket.
Import TokenBucket.

(** Package [rate] documents that [Wait] returns an error if the burst
    is smaller than the one token asked for, if the context is already
    done, or if the expected wait exceeds the context's deadline.  This
    limiter is the token bucket above with those three checks made
    before it sleeps, so that in each of these cases it returns at the
    instant it was called. *)
Definition Wait (b : Limiter) (ctx : Context) (now : Time)
    : option (option error * Time * Limiter) :=
  match limit b with
  | Inf =>
      match ctx_Err ctx now with
      | Some e => Some (Some e, now, b)
      | None => Some (None, now, b)
      end
  | PerSecond r =>
      if negb (Qle_bool 1 (inject_Z (burst b)))
      then Some (Some (errorString "rate: Wait(n=1) exceeds limiter's burst"),
                 now, b)
      else
        match ctx_Err ctx now with
        | Some e => Some (Some e, now, b)
        | None =>
            let tk := refill b r now in
            if Qle_bool 1 tk
            then Some (None, now, set_balance b (tk - 1)%Q now)
            else
              match ready_at b r tk now with
              | None =>
                  match ctx_signal ctx with
                  | Some (s, e) => deny b r now s e
                  | None => None
                  end
              | Some t =>
                  match ctx_deadline ctx with
                  | Some d =>
                      if Qle_bool t d then TokenBucket.Wait b ctx now
                      else Some (Some (errorString
                                   "rate: Wait(n=1) would exceed context deadline"),
                                 now, b)
                  | None => TokenBucket.Wait b ctx now
                  end
              end
        end
  end.

Definition limiter : RateLimiter :=
  {| rate_Limiter := Limiter;
     rate_NewLimiter := NewLimiter;
     Limiter_Wait := Wait |}.

End EagerBucket.

(** ** A connection object to run the facade on *)

Module MemDB.

(** A small stand-in for an open [sql.DB]: it remembers whether it was
    closed and the statements executed on it.  Like [database/sql] it
    refuses every call once closed and every call made with a context
    that is already done. *)
Record DB : Type := mkDB {
  closed : bool;
  executed : list string
}.

Definition open : DB := mkDB false [].

Definition ErrDBClosed : error := errorString "sql: database is closed".

Definition refuse (s : DB) (t : Time) (ctx : Context) : option error :=
  if closed s then Some ErrDBClosed else ctx_Err ctx t.

(** A row handle: the deferred error and the row itself. *)
Record Row : Type := mkRow {
  row_err : option error;
  row_values : list string
}.

Definition QueryContext (s : DB) (t : Time) (ctx : Context) (q : string)
    (args : list any) : (option (list string) * option error) * DB :=
  match refuse s t ctx with
  | Some e => ((None, Some e), s)
  | None => ((Some (executed s), None), s)
  end.

Definition QueryRowContext (s : DB) (t : Time) (ctx : Context) (q : string)
    (args : list any) : Row * DB :=
  match refuse s t ctx with
  | Some e => (mkRow (Some e) [], s)
  | None => (mkRow None (executed s), s)
  end.

Definition ExecContext (s : DB) (t : Time) (ctx : Context) (q : string)
    (args : list any) : (option Z * option error) * DB :=
  match refuse s t ctx with
  | Some e => ((None, Some e), s)
  | None => ((Some 1%Z, None), mkDB (closed s) (executed s ++ [q]))
  end.

Definition PrepareContext (s : DB) (t : Time) (ctx : Context) (q : string)
    : (option string * option error) * DB :=
  match refuse s t ctx with
  | Some e => ((None, Some e), s)
  | None => ((Some q, None), s)
  end.

Definition Close (s : DB) (t : Time) : option error * DB :=
  (None, mkDB true (executed s)).

Definition Ping (s : DB) (t : Time) : option error * DB :=
  (refuse s t Background, s).

Definition Conn (s : DB) (t : Time) (ctx : Context)
    : (option unit * option error) * DB :=
  match refuse s t ctx with
  | Some e => ((None, Some e), s)
  | None => ((Some tt, None), s)
  end.

Definition sqldb : SqlDB :=
  {| sql_DB := DB;
     sql_Rows := list string;
     sql_Row := Row;
     sql_Result := Z;
     sql_Stmt := string;
     sql_Conn := unit;
     DB_QueryContext := QueryContext;
     DB_QueryRowContext := QueryRowContext;
     DB_ExecContext := ExecContext;
     DB_PrepareContext := PrepareContext;
     DB_Close := Close;
     DB_Ping := Ping;
     DB_Conn := Conn;
     Row_Scan := row_err |}.

(** A world with one open connection object at address [1], at time [0]. *)
Definition world (RL : RateLimiter) : @World RL sqldb :=
  mkWorld 0%Q {[ 1 := open ]} ∅ ∅ [] [].

End MemDB.

(** ** Reading a bucket *)

(** The token balance of a bucket at time [t]. *)
Definition balance_at (b : TokenBucket.Limiter) (t : Time) : Q :=
  match TokenBucket.limit b with
  | Inf => TokenBucket.tokens b
  | PerSecond r => TokenBucket.refill b r t
  end.

(** The token balance, at time [t], of the limiter at address [l]. *)
Definition tokens_at {SQL : SqlDB} (l : ptr)
    (w : @World EagerBucket.limiter SQL) (t : Time) : Q :=
  match limiters w !! l with
  | Some b => balance_at b t
  | None => 0%Q
  end.

(** ** The scenario of [TestContextCancellation] *)

Section Run.
Context {RL : RateLimiter} {SQL : SqlDB}.

(** The world a method leaves behind ([w] itself if it does not return). *)
Definition world_after {A : Type} (m : M A) (w : World) : World :=
  match m w with
  | Ok _ w' => w'
  | _ => w
  end.
End Run.

Module Scenario.

(** A context that expires after 100ms, and a statement. *)
Definition ctx : Context := WithDeadline (1 # 10).
Definition query : string := "SELECT * FROM users".

(** [Wrap(db, rate.Limit(0.1), 1)] on the open connection at address
    [1]; the facade and its limiter both get address [1]. *)
Definition wrapped (RL : RateLimiter) : @World RL MemDB.sqldb :=
  world_after (Wrap 1 (PerSecond (1 # 10)) 1) (MemDB.world RL).

(** ... and after a first query, which uses up the burst. *)
Definition exhausted (RL : RateLimiter) : @World RL MemDB.sqldb :=
  world_after (QueryContext 1 ctx query []) (wrapped RL).

(** The two limiters the scenario is run with, and the facade object. *)
Abbreviation TB := TokenBucket.limiter.
Abbreviation EB := EagerBucket.limiter.
Abbreviation facade := {| db := 1; limiter := 1 |}.

End Scenario.

(** * Properties *)

Section Facade.
Context {RL : RateLimiter} {SQL : SqlDB}.
Implicit Types (w : World) (r l d : ptr) (f : RateLimitedDB) (ctx : Context).

(** ** Reading the monad *)

Lemma bind_Ok {A B : Type} (m : M A) (k : A -> M B) w a w1 :
  m w = Ok a w1 -> (m ≫= k) w = k a w1.
Proof. intros E. unfold mbind, M_bind. now rewrite E. Qed.

Lemma fmap_Ok_inv {A B : Type} (g : A -> B) (m : M A) w b w' :
  (g <$> m) w = Ok b w' -> exists a, m w = Ok a w' /\ b = g a.
Proof.
  unfold fmap, M_fmap. destruct (m w) as [a w1| |]; intros E; inversion E.
  now exists a.
Qed.

Lemma bind_Ok_inv {A B : Type} (m : M A) (k : A -> M B) w b w' :
  (m ≫= k) w = Ok b w' -> exists a w1, m w = Ok a w1 /\ k a w1 = Ok b w'.
Proof.
  unfold mbind, M_bind. destruct (m w) as [a w1| |]; intros E; try discriminate.
  now exists a, w1.
Qed.

Lemma load_Some r f w : facades w !! r = Some f -> load r w = Ok f w.
Proof. intros E. unfold load. now rewrite E. Qed.

Lemma load_Ok_inv r f w w' :
  load r w = Ok f w' -> facades w !! r = Some f /\ w' = w.
Proof.
  unfold load. destruct (facades w !! r); intros E; inversion E; now subst.
Qed.

Lemma wait_load r f ctx w :
  facades w !! r = Some f -> wait r ctx w = limiter_Wait (limiter f) ctx w.
Proof. intros E. unfold wait. now rewrite (bind_Ok _ _ _ _ _ (load_Some _ _ _ E)). Qed.

(** What a [Wait] that returns leaves behind: one more entry in the
    limiter log, and nothing else than the limiter and the clock moved. *)
Lemma limiter_Wait_frame l ctx w err w1 :
  limiter_Wait l ctx w = Ok err w1 ->
  facades w1 = facades w /\ sqlDBs w1 = sqlDBs w /\ db_calls w1 = db_calls w /\
  lim_calls w1 = lim_calls w ++ [mkWaitCall l ctx err].
Proof.
  unfold limiter_Wait. destruct (limiters w !! l) as [lim|]; [|discriminate].
  destruct (Limiter_Wait lim ctx (now w)) as [[[e t] lim']|]; [|discriminate].
  intros E. inversion E; subst. now cbn.
Qed.

Lemma sqlDB_call_Ok_inv {A : Type} d c (op : sql_DB -> Time -> A * sql_DB) w a w' :
  sqlDB_call d c op w = Ok a w' -> exists s', w' = after_call d c s' w.
Proof.
  unfold sqlDB_call. destruct (sqlDBs w !! d) as [s|]; [|discriminate].
  intros E. inversion E. now eexists.
Qed.

Lemma after_call_untouched d c s' w : limiter_untouched w (after_call d c s' w).
Proof. now unfold limiter_untouched. Qed.

End Facade.

Section Gate.
Context {RL : RateLimiter} {SQL : SqlDB}.
Implicit Types (w : World) (r l d : ptr) (f : RateLimitedDB) (ctx : Context).

(** C1, as amended.  When the acquire of a token fails, that is when the
    limiter's [Wait] returns an error [e], [QueryContext], [ExecContext]
    and [PrepareContext] return [(nil, e)]: the error [Wait] returned,
    whichever it is, as their error result, in the world [Wait] left; the
    connection object has received no call and is unchanged. *)
Theorem admission_failure_is_returned w w1 r f ctx query args e :
  facades w !! r = Some f ->
  limiter_Wait (limiter f) ctx w = Ok (Some e) w1 ->
  QueryContext r ctx query args w = Ok (None, Some e) w1 /\
  ExecContext r ctx query args w = Ok (None, Some e) w1 /\
  PrepareContext r ctx query w = Ok (None, Some e) w1 /\
  db_calls w1 = db_calls w /\ sqlDBs w1 = sqlDBs w.
Proof.
  intros Hf Hw.
  assert (Hwait : wait r ctx w = Ok (Some e) w1) by now rewrite (wait_load _ _ _ _ Hf).
  destruct (limiter_Wait_frame _ _ _ _ _ Hw) as (_ & Hs & Hc & _).
  unfold QueryContext, ExecContext, PrepareContext.
  rewrite !(bind_Ok _ _ _ _ _ Hwait). now repeat split.
Qed.

(** C4.  When the acquire succeeds, each gated method is exactly one
    call of the same method on the connection object [r.db], with the
    same context, statement and arguments, made in the world [Wait]
    left; the method returns what that call returned, value and error,
    as they are. *)
Theorem admitted_call_is_delegated_verbatim w w1 r f s ctx query args :
  facades w !! r = Some f ->
  limiter_Wait (limiter f) ctx w = Ok None w1 ->
  sqlDBs w1 !! db f = Some s ->
  QueryContext r ctx query args w =
    Ok (DB_QueryContext s (now w1) ctx query args).1
       (after_call (db f) (CallQuery ctx query args)
          (DB_QueryContext s (now w1) ctx query args).2 w1) /\
  QueryRowContext r ctx query args w =
    Ok (DB_QueryRowContext s (now w1) ctx query args).1
       (after_call (db f) (CallQueryRow ctx query args)
          (DB_QueryRowContext s (now w1) ctx query args).2 w1) /\
  ExecContext r ctx query args w =
    Ok (DB_ExecContext s (now w1) ctx query args).1
       (after_call (db f) (CallExec ctx query args)
          (DB_ExecContext s (now w1) ctx query args).2 w1) /\
  PrepareContext r ctx query w =
    Ok (DB_PrepareContext s (now w1) ctx query).1
       (after_call (db f) (CallPrepare ctx query)
          (DB_PrepareContext s (now w1) ctx query).2 w1).
Proof.
  intros Hf Hw Hs.
  assert (Hwait : wait r ctx w = Ok None w1) by now rewrite (wait_load _ _ _ _ Hf).
  destruct (limiter_Wait_frame _ _ _ _ _ Hw) as (Hf1 & _).
  assert (Hl : load r w1 = Ok f w1) by (apply load_Some; now rewrite Hf1).
  unfold QueryContext, QueryRowContext, ExecContext, PrepareContext.
  rewrite !(bind_Ok _ _ _ _ _ Hwait), !(bind_Ok _ _ _ _ _ Hl).
  unfold sqlDB_QueryContext, sqlDB_QueryRowContext, sqlDB_ExecContext,
    sqlDB_PrepareContext.
  repeat split; unfold sqlDB_call; now rewrite Hs.
Qed.

(** C9.  Whatever [Wait] answers, an error or not, [QueryRowContext]
    goes on to call [QueryRowContext] on the connection object, once,
    and returns the row handle of that call: the answer of [Wait] is
    discarded. *)
Theorem QueryRowContext_always_delegates w w1 r f s ctx query args err :
  facades w !! r = Some f ->
  limiter_Wait (limiter f) ctx w = Ok err w1 ->
  sqlDBs w !! db f = Some s ->
  QueryRowContext r ctx query args w =
    Ok (DB_QueryRowContext s (now w1) ctx query args).1
       (after_call (db f) (CallQueryRow ctx query args)
          (DB_QueryRowContext s (now w1) ctx query args).2 w1) /\
  db_calls (after_call (db f) (CallQueryRow ctx query args)
              (DB_QueryRowContext s (now w1) ctx query args).2 w1) =
    db_calls w ++ [(db f, CallQueryRow ctx query args)].
Proof.
  intros Hf Hw Hs.
  assert (Hwait : wait r ctx w = Ok err w1) by now rewrite (wait_load _ _ _ _ Hf).
  destruct (limiter_Wait_frame _ _ _ _ _ Hw) as (Hf1 & Hs1 & Hc1 & _).
  assert (Hl : load r w1 = Ok f w1) by (apply load_Some; now rewrite Hf1).
  unfold QueryRowContext.
  rewrite (bind_Ok _ _ _ _ _ Hwait), (bind_Ok _ _ _ _ _ Hl).
  unfold sqlDB_QueryRowContext. split.
  - unfold sqlDB_call. now rewrite Hs1, Hs.
  - cbn. now rewrite Hc1.
Qed.

(** C6.  [Close], [Ping] and [Conn] are one call of the same method on
    the connection object and return what it returned; whatever the
    state of the limiter, it is not asked, its state and its log do not
    change, and the clock does not move. *)
Theorem ungated_methods_delegate w r f s ctx :
  facades w !! r = Some f ->
  sqlDBs w !! db f = Some s ->
  Close r w = Ok (DB_Close s (now w)).1
                (after_call (db f) CallClose (DB_Close s (now w)).2 w) /\
  Ping r w = Ok (DB_Ping s (now w)).1
               (after_call (db f) CallPing (DB_Ping s (now w)).2 w) /\
  Conn r ctx w = Ok (DB_Conn s (now w) ctx).1
                   (after_call (db f) (CallConn ctx) (DB_Conn s (now w) ctx).2 w) /\
  limiter_untouched w (after_call (db f) CallClose (DB_Close s (now w)).2 w) /\
  limiter_untouched w (after_call (db f) CallPing (DB_Ping s (now w)).2 w) /\
  limiter_untouched w (after_call (db f) (CallConn ctx) (DB_Conn s (now w) ctx).2 w).
Proof.
  intros Hf Hs.
  pose proof (load_Some _ _ _ Hf) as Hl.
  unfold Close, Ping, Conn. rewrite !(bind_Ok _ _ _ _ _ Hl).
  unfold sqlDB_Close, sqlDB_Ping, sqlDB_Conn.
  repeat split; unfold sqlDB_call; now rewrite Hs.
Qed.

End Gate.

Section Frame.
Context {RL : RateLimiter} {SQL : SqlDB}.
Implicit Types (w : World) (r l d : ptr) (f : RateLimitedDB) (ctx : Context).

Lemma fresh_ptr_spec {A : Type} (h : gmap ptr A) :
  fresh_ptr h <> nil_ptr /\ h !! fresh_ptr h = None.
Proof.
  unfold fresh_ptr.
  pose proof (is_fresh ({[nil_ptr]} ∪ dom h)) as Hfresh.
  split.
  - intros E. apply Hfresh. rewrite E. set_solver.
  - apply not_elem_of_dom. set_solver.
Qed.

Lemma Wrap_unfold d limit burst w :
  Wrap d limit burst w =
    Ok (fresh_ptr (facades w))
       (mkWorld (now w) (sqlDBs w)
          (<[fresh_ptr (limiters w) := rate_NewLimiter limit burst]> (limiters w))
          (<[fresh_ptr (facades w) :=
               {| db := d; limiter := fresh_ptr (limiters w) |}]> (facades w))
          (db_calls w) (lim_calls w)).
Proof. reflexivity. Qed.

(** What one call on a connection object leaves behind. *)
Lemma direct_frame d c w ret w' :
  direct d c w = Ok ret w' -> exists s', w' = after_call d c s' w.
Proof.
  destruct c; cbn; intros E; apply fmap_Ok_inv in E as (a & E & _);
    eapply sqlDB_call_Ok_inv; exact E.
Qed.

Lemma gated_frame {A : Type} r f ctx (deleg : ptr -> M (A * option error))
    (none : A) (m : M (A * option error)) w x w' :
  (forall d w0 y w1, deleg d w0 = Ok y w1 -> exists c s', w1 = after_call d c s' w0) ->
  m = (err ← wait r ctx;
       match err with
       | Some e => mret (none, Some e)
       | None => f' ← load r; deleg (db f')
       end) ->
  facades w !! r = Some f ->
  m w = Ok x w' ->
  one_request f ctx w w'.
Proof.
  intros Hd -> Hf E.
  apply bind_Ok_inv in E as (err & w1 & Hw & E).
  rewrite (wait_load _ _ _ _ Hf) in Hw.
  apply limiter_Wait_frame in Hw as (Hf1 & _ & _ & Hl).
  destruct err as [e|].
  - inversion E; subst. split; [assumption|]. now exists (Some e).
  - apply bind_Ok_inv in E as (f' & w2 & Hload & E).
    apply load_Ok_inv in Hload as [_ ->].
    apply Hd in E as (c & s' & ->). split; [assumption|]. now exists None.
Qed.

Lemma QueryContext_frame r f ctx q args w x w' :
  facades w !! r = Some f -> QueryContext r ctx q args w = Ok x w' ->
  one_request f ctx w w'.
Proof.
  apply (gated_frame r f ctx (fun d => sqlDB_QueryContext d ctx q args) None);
    [|reflexivity].
  intros d w0 y w1 E. apply sqlDB_call_Ok_inv in E as [s' ->]. eauto.
Qed.

Lemma ExecContext_frame r f ctx q args w x w' :
  facades w !! r = Some f -> ExecContext r ctx q args w = Ok x w' ->
  one_request f ctx w w'.
Proof.
  apply (gated_frame r f ctx (fun d => sqlDB_ExecContext d ctx q args) None);
    [|reflexivity].
  intros d w0 y w1 E. apply sqlDB_call_Ok_inv in E as [s' ->]. eauto.
Qed.

Lemma PrepareContext_frame r f ctx q w x w' :
  facades w !! r = Some f -> PrepareContext r ctx q w = Ok x w' ->
  one_request f ctx w w'.
Proof.
  apply (gated_frame r f ctx (fun d => sqlDB_PrepareContext d ctx q) None);
    [|reflexivity].
  intros d w0 y w1 E. apply sqlDB_call_Ok_inv in E as [s' ->]. eauto.
Qed.

Lemma QueryRowContext_frame r f ctx q args w x w' :
  facades w !! r = Some f -> QueryRowContext r ctx q args w = Ok x w' ->
  one_request f ctx w w'.
Proof.
  intros Hf E. unfold QueryRowContext in E.
  apply bind_Ok_inv in E as (err & w1 & Hw & E).
  rewrite (wait_load _ _ _ _ Hf) in Hw.
  apply limiter_Wait_frame in Hw as (Hf1 & _ & _ & Hl).
  apply bind_Ok_inv in E as (f' & w2 & Hload & E).
  apply load_Ok_inv in Hload as [_ ->].
  apply sqlDB_call_Ok_inv in E as [s' ->].
  split; [assumption|]. now exists err.
Qed.

(** The methods that do not go through [wait], [Raw], and the calls made
    on the handle [Raw] returns: the facades and the limiters are as
    they were. *)
Lemma ungated_frame r o w ret w' :
  gated o = false -> run_op r o w = Ok ret w' ->
  facades w' = facades w /\ limiter_untouched w w'.
Proof.
  intros Hg E. destruct o; try discriminate Hg; cbn in E.
  1-3: apply fmap_Ok_inv in E as (a & E & _);
       apply bind_Ok_inv in E as (f' & w2 & Hload & E);
       apply load_Ok_inv in Hload as [_ ->];
       apply sqlDB_call_Ok_inv in E as [s' ->];
       split; [reflexivity | apply after_call_untouched].
  - apply fmap_Ok_inv in E as (a & E & _).
    apply bind_Ok_inv in E as (f' & w2 & Hload & E).
    apply load_Ok_inv in Hload as [_ ->]. inversion E; subst.
    now unfold limiter_untouched.
  - apply bind_Ok_inv in E as (d & w1 & Hraw & E).
    apply bind_Ok_inv in Hraw as (f' & w2 & Hload & Hraw).
    apply load_Ok_inv in Hload as [_ ->]. inversion Hraw; subst.
    apply direct_frame in E as [s' ->].
    split; [reflexivity | apply after_call_untouched].
Qed.

Lemma gated_op_frame r f o w ret w' :
  gated o = true -> facades w !! r = Some f -> run_op r o w = Ok ret w' ->
  facades w' = facades w /\
  exists c, lim_calls w' = lim_calls w ++ [c] /\ wait_on c = limiter f.
Proof.
  intros Hg Hf E. destruct o; try discriminate Hg; cbn in E;
    apply fmap_Ok_inv in E as (a & E & _).
  - apply (QueryContext_frame _ _ _ _ _ _ _ _ Hf) in E as (? & err & ?); eauto.
  - apply (QueryRowContext_frame _ _ _ _ _ _ _ _ Hf) in E as (? & err & ?); eauto.
  - apply (ExecContext_frame _ _ _ _ _ _ _ _ Hf) in E as (? & err & ?); eauto.
  - apply (PrepareContext_frame _ _ _ _ _ _ _ Hf) in E as (? & err & ?); eauto.
Qed.

End Frame.

Section Invariants.
Context {RL : RateLimiter} {SQL : SqlDB}.
Implicit Types (w : World) (r l d : ptr) (f : RateLimitedDB) (ctx : Context).

(** C8.  [Wrap] validates nothing: for every handle (nil included),
    every rate and every burst (zero and negative included) it returns,
    without panicking and with no error to report, a non-nil pointer to
    a new facade whose [db] is the given handle and whose [limiter] is a
    new limiter object holding [rate.NewLimiter(limit, burst)]; nothing
    else in the world changes. *)
Theorem Wrap_validates_nothing w d limit burst :
  exists r l w1,
    Wrap d limit burst w = Ok r w1 /\
    r <> nil_ptr /\ facades w !! r = None /\
    l <> nil_ptr /\ limiters w !! l = None /\
    facades w1 !! r = Some {| db := d; limiter := l |} /\
    limiters w1 !! l = Some (rate_NewLimiter limit burst) /\
    facades w1 = <[r := {| db := d; limiter := l |}]> (facades w) /\
    limiters w1 = <[l := rate_NewLimiter limit burst]> (limiters w) /\
    sqlDBs w1 = sqlDBs w /\ db_calls w1 = db_calls w /\
    lim_calls w1 = lim_calls w /\ now w1 = now w.
Proof.
  eexists _, _, _. split; [apply Wrap_unfold|]. cbn.
  destruct (fresh_ptr_spec (facades w)) as [Hr Hrf].
  destruct (fresh_ptr_spec (limiters w)) as [Hl Hlf].
  repeat split; try assumption; apply lookup_insert_eq.
Qed.

(** C5.  [Raw] gives back the handle [Wrap] was given: the same
    pointer, read from the facade without touching the world.  A call
    made on that handle reaches the connection object without the
    limiter: no limiter changes, none receives a request, the clock
    does not move (and the call panics exactly when the handle points
    to no connection object). *)
Theorem Raw_returns_wrapped_handle w d limit burst :
  exists r w1,
    Wrap d limit burst w = Ok r w1 /\
    Raw r w1 = Ok d w1 /\
    forall c,
      match direct d c w1 with
      | Ok _ w2 => limiter_untouched w1 w2
      | Panic => sqlDBs w !! d = None
      | Hang => False
      end.
Proof.
  eexists _, _. split; [apply Wrap_unfold|]. split.
  - unfold Raw, mbind, M_bind, load. cbn. now rewrite lookup_insert_eq.
  - intros c.
    destruct c; cbn;
      unfold fmap, M_fmap, sqlDB_QueryContext, sqlDB_QueryRowContext,
        sqlDB_ExecContext, sqlDB_PrepareContext, sqlDB_Close, sqlDB_Ping,
        sqlDB_Conn, sqlDB_call; cbn;
      destruct (sqlDBs w !! d); try reflexivity; apply after_call_untouched.
Qed.

Lemma filter_Forall_id {A : Type} (P : A -> Prop) `{!forall x, Decision (P x)}
    (xs : list A) :
  Forall P xs -> filter P xs = xs.
Proof.
  induction 1 as [|x xs Hx _ IH]; [reflexivity|].
  rewrite filter_cons_True by assumption. now rewrite IH.
Qed.

Lemma tokens_consumed_app l w w' ws :
  lim_calls w' = lim_calls w ++ ws ->
  Forall (fun c => wait_on c = l) ws ->
  tokens_consumed l w' =
    tokens_consumed l w + length (filter (fun c => granted c = true) ws).
Proof.
  intros E Hall. unfold tokens_consumed, requests.
  rewrite E, !filter_app, length_app.
  now rewrite (filter_Forall_id _ ws Hall).
Qed.

(** C10.  No operation reassigns a field of a facade: whatever is run
    on [r], the heap of facade objects is the same afterwards.  [Close]
    is one call on the connection object; it leaves the facades and the
    limiters as they were.  After it a gated method still is a [Wait] on
    the same limiter followed, once admitted, by the call on the same
    connection object, now in the state [Close] left it in, whose answer
    it returns. *)
Theorem facade_has_no_state_of_its_own w r f s :
  facades w !! r = Some f ->
  sqlDBs w !! db f = Some s ->
  let wc := after_call (db f) CallClose (DB_Close s (now w)).2 w in
  (forall r0 o w0 ret w', run_op r0 o w0 = Ok ret w' -> facades w' = facades w0) /\
  Close r w = Ok (DB_Close s (now w)).1 wc /\
  facades wc = facades w /\ limiter_untouched w wc /\
  sqlDBs wc !! db f = Some (DB_Close s (now w)).2 /\
  forall ctx query args,
    QueryContext r ctx query args wc =
      (err ← limiter_Wait (limiter f) ctx;
       match err with
       | Some e => mret (None, Some e)
       | None => sqlDB_QueryContext (db f) ctx query args
       end) wc /\
    QueryRowContext r ctx query args wc =
      (_ ← limiter_Wait (limiter f) ctx;
       sqlDB_QueryRowContext (db f) ctx query args) wc /\
    ExecContext r ctx query args wc =
      (err ← limiter_Wait (limiter f) ctx;
       match err with
       | Some e => mret (None, Some e)
       | None => sqlDB_ExecContext (db f) ctx query args
       end) wc /\
    PrepareContext r ctx query wc =
      (err ← limiter_Wait (limiter f) ctx;
       match err with
       | Some e => mret (None, Some e)
       | None => sqlDB_PrepareContext (db f) ctx query
       end) wc.
Proof.
  intros Hf Hs wc.
  assert (Hfc : facades wc !! r = Some f) by exact Hf.
  split; [|split; [|split; [|split; [|split]]]].
  - intros r0 o w0 ret w' E. destruct (gated o) eqn:Hg.
    + destruct (facades w0 !! r0) as [f0|] eqn:Hf0.
      * now destruct (gated_op_frame _ _ _ _ _ _ Hg Hf0 E).
      * exfalso. destruct o; try discriminate Hg; cbn in E;
          unfold fmap, M_fmap, QueryContext, QueryRowContext, ExecContext,
            PrepareContext, wait, mbind, M_bind, load in E;
          rewrite Hf0 in E; discriminate E.
    + now destruct (ungated_frame _ _ _ _ _ Hg E).
  - unfold Close. rewrite (bind_Ok _ _ _ _ _ (load_Some _ _ _ Hf)).
    unfold sqlDB_Close, sqlDB_call. now rewrite Hs.
  - reflexivity.
  - apply after_call_untouched.
  - cbn. apply lookup_insert_eq.
  - intros ctx query args.
    assert (Hgate : forall (A : Type) (k : option error -> M A),
              (wait r ctx ≫= k) wc = (limiter_Wait (limiter f) ctx ≫= k) wc).
    { intros A k. unfold mbind, M_bind. now rewrite (wait_load _ _ _ _ Hfc). }
    unfold QueryContext, QueryRowContext, ExecContext, PrepareContext.
    rewrite !Hgate.
    repeat split; unfold mbind at 1 3, M_bind at 1 3;
      destruct (limiter_Wait (limiter f) ctx wc) as [err w1| |] eqn:Hw;
      try reflexivity; try destruct err; try reflexivity;
      (rewrite (bind_Ok (load r) _ w1 f w1);
       [reflexivity
       |apply load_Some; apply limiter_Wait_frame in Hw as (-> & _); exact Hfc]).
Qed.

End Invariants.

(** ** The token bucket *)

Module TokenBucketFacts.
Import TokenBucket.
Local Open Scope Q_scope.

Lemma Qle_bool_false (x y : Q) : Qle_bool x y = false <-> y < x.
Proof.
  split; intros H.
  - apply Qnot_le_lt. intros Hle. apply Qle_bool_iff in Hle. congruence.
  - destruct (Qle_bool x y) eqn:E; [|reflexivity].
    apply Qle_bool_iff in E. apply Qle_not_lt in E. contradiction.
Qed.

Lemma inject_pred (n : nat) :
  (1 <= n)%nat -> inject_Z (Z.of_nat (n - 1)) == inject_Z (Z.of_nat n) - 1.
Proof.
  intros Hn. replace (Z.of_nat (n - 1)) with (Z.of_nat n + -1)%Z by lia.
  rewrite inject_Z_plus. reflexivity.
Qed.

Lemma refill_le_burst b r now : refill b r now <= inject_Z (burst b).
Proof. unfold refill. apply Q.le_min_l. Qed.

(** Right after a balance [tk] within the cap was set at [now], the
    balance at [now] is [tk]. *)
Lemma refill_set_balance b r tk now :
  tk <= inject_Z (burst b) -> refill (set_balance b tk now) r now == tk.
Proof.
  intros Hle. unfold refill, set_balance; cbn.
  assert (E : Qmax 0 (now - now) == 0).
  { apply Q.max_l. lra. }
  rewrite E. rewrite Q.min_r; lra.
Qed.

Lemma refill_NewLimiter r n now :
  0 < r -> refill (NewLimiter (PerSecond r) n) r now == inject_Z n.
Proof.
  intros Hr. unfold refill, NewLimiter; cbn.
  apply Q.min_l.
  assert (H0 : 0 <= Qmax 0 (now - 0)) by apply Q.le_max_l.
  assert (0 <= Qmax 0 (now - 0) * r) by (apply Qmult_le_0_compat; lra).
  lra.
Qed.

(** With a token in the bucket the acquire returns at once, whatever the
    context, and takes one token. *)
Lemma Wait_token_available b r ctx now :
  limit b = PerSecond r -> 1 <= refill b r now ->
  Wait b ctx now = Some (None, now, set_balance b (refill b r now - 1) now).
Proof.
  intros Hl H1. unfold Wait. rewrite Hl.
  apply Qle_bool_iff in H1. now rewrite H1.
Qed.

(** A failed acquire reports the reason of the context's signal, and no
    later than the token would have come. *)
Lemma Wait_error_is_signal b ctx now e t b' :
  Wait b ctx now = Some (Some e, t, b') ->
  exists s, ctx_signal ctx = Some (s, e) /\ t = Qmax now s.
Proof.
  unfold Wait, deny. destruct (limit b) as [|r]; [discriminate|].
  destruct (Qle_bool 1 (refill b r now)); [discriminate|].
  destruct (ready_at b r (refill b r now) now) as [t1|];
    destruct (ctx_signal ctx) as [[s e1]|]; try discriminate.
  - destruct (Qle_bool t1 s); [discriminate|].
    intros E; inversion E; subst. now exists s.
  - intros E; inversion E; subst. now exists s.
Qed.

(** From a balance of [n] whole tokens within the cap, [k <= n] acquires
    in a row at the same instant all return at once, and leave [n - k]. *)
Lemma Wait_times_available r now : forall k b n,
  limit b = PerSecond r ->
  refill b r now == inject_Z (Z.of_nat n) ->
  (k <= n)%nat ->
  exists b',
    Wait_times k b now = Some (repeat (None, now) k, b') /\
    limit b' = PerSecond r /\ burst b' = burst b /\
    refill b' r now == inject_Z (Z.of_nat (n - k)) /\
    ((0 < k)%nat -> tokens b' == inject_Z (Z.of_nat (n - k))).
Proof.
  induction k as [|k IH]; intros b n Hl Hn Hk.
  - exists b. rewrite Nat.sub_0_r. repeat split; try assumption. lia.
  - assert (H1 : 1 <= refill b r now).
    { rewrite Hn. change 1 with (inject_Z 1). rewrite <- Zle_Qle. lia. }
    pose proof (refill_le_burst b r now) as Hcap.
    set (b1 := set_balance b (refill b r now - 1) now).
    assert (Hn1 : refill b1 r now == inject_Z (Z.of_nat (n - 1))).
    { unfold b1. rewrite refill_set_balance by lra.
      rewrite Hn, inject_pred by lia. reflexivity. }
    destruct (IH b1 (n - 1)%nat Hl Hn1 ltac:(lia))
      as (b' & Hw & Hl' & Hb' & Hr' & Ht').
    exists b'. cbn [Wait_times repeat].
    rewrite (Wait_token_available b r Background now Hl H1).
    fold b1. rewrite Hw.
    replace (n - S k)%nat with (n - 1 - k)%nat by lia.
    repeat split; try assumption.
    intros _. destruct k as [|k'].
    + cbn in Hw. inversion Hw; subst b'. cbn.
      rewrite Nat.sub_0_r. rewrite Hn, inject_pred by lia. reflexivity.
    + apply Ht'. lia.
Qed.

(** C7.  A limiter made with a burst [B >= 1] and a finite rate
    [R > 0] starts with a full bucket.  At any instant [t0], the first
    [B] acquires all return at once, without an error, and after [k] of
    them the balance is [B - k].  The next one finds the bucket empty:
    without a signal it returns, granted, at [t0 + 1/R] and not before;
    with a context whose signal fires before [t0 + 1/R] it fails, with
    the signal's reason, before that instant. *)
Theorem cold_start_grants_burst_then_waits (B : nat) (R : Q) (t0 : Time) :
  (1 <= B)%nat -> 0 < R ->
  let b0 := NewLimiter (PerSecond R) (Z.of_nat B) in
  (forall k, (k <= B)%nat ->
     exists bk, Wait_times k b0 t0 = Some (repeat (None, t0) k, bk) /\
                tokens bk == inject_Z (Z.of_nat (B - k))) /\
  exists bB,
    Wait_times B b0 t0 = Some (repeat (None, t0) B, bB) /\
    tokens bB == 0 /\
    (exists t b', Wait bB Background t0 = Some (None, t, b') /\
                  t == t0 + 1 / R /\ t0 < t) /\
    (forall ctx s e, ctx_signal ctx = Some (s, e) -> s < t0 + 1 / R ->
       exists t b', Wait bB ctx t0 = Some (Some e, t, b') /\ t < t0 + 1 / R).
Proof.
  intros HB HR b0.
  assert (H0 : refill b0 R t0 == inject_Z (Z.of_nat B))
    by now apply refill_NewLimiter.
  assert (Hinv : 0 < 1 / R).
  { unfold Qdiv. rewrite Qmult_1_l. now apply Qinv_lt_0_compat. }
  split.
  - intros k Hk.
    destruct (Wait_times_available R t0 k b0 B eq_refl H0 Hk)
      as (bk & Hw & _ & _ & _ & Ht).
    exists bk. split; [assumption|].
    destruct k as [|k']; [|apply Ht; lia].
    cbn in Hw. inversion Hw; subst bk. cbn. now rewrite Nat.sub_0_r.
  - destruct (Wait_times_available R t0 B b0 B eq_refl H0 (le_n B))
      as (bB & Hw & Hl & Hb & Hr & Ht).
    rewrite Nat.sub_diag in Hr, Ht. change (inject_Z (Z.of_nat 0)) with 0 in Hr, Ht.
    exists bB. split; [assumption|]. split; [apply Ht; lia|].
    assert (Hempty : Qle_bool 1 (refill bB R t0) = false).
    { apply Qle_bool_false. rewrite Hr. lra. }
    assert (Hready : ready_at bB R (refill bB R t0) t0 =
                     Some (t0 + (1 - refill bB R t0) / R)).
    { unfold ready_at. rewrite Hb. cbn [b0 NewLimiter burst].
      assert (E1 : Qle_bool 1 (inject_Z (Z.of_nat B)) = true).
      { apply Qle_bool_iff. change 1 with (inject_Z 1). rewrite <- Zle_Qle. lia. }
      assert (E2 : Qle_bool R 0 = false) by now apply Qle_bool_false.
      now rewrite E1, E2. }
    assert (Hwhen : t0 + (1 - refill bB R t0) / R == t0 + 1 / R).
    { rewrite Hr. unfold Qminus. rewrite Qplus_0_r. reflexivity. }
    split.
    + eexists _, _. unfold Wait. rewrite Hl, Hempty, Hready. cbn.
      split; [reflexivity|]. split; [exact Hwhen|]. rewrite Hwhen. lra.
    + intros ctx s e Hsig Hs.
      eexists _, _. unfold Wait. rewrite Hl, Hempty, Hready, Hsig.
      assert (E : Qle_bool (t0 + (1 - refill bB R t0) / R) s = false).
      { apply Qle_bool_false. rewrite Hwhen. exact Hs. }
      rewrite E. unfold deny. split; [reflexivity|].
      apply Q.max_lub_lt; lra.
Qed.

End TokenBucketFacts.

(** ** The scenario, run *)

Module ScenarioFacts.
Import Scenario.

(** [Wrap] puts the facade and its limiter at address [1]. *)
Lemma wrapped_at_1 (RL : RateLimiter) :
  Wrap 1 (PerSecond (1 # 10)) 1 (MemDB.world RL) = Ok 1 (wrapped RL) /\
  facades (wrapped RL) !! 1 = Some facade.
Proof. split; reflexivity. Qed.

(** The first query is admitted at once by either limiter. *)
Lemma first_query_admitted_TB :
  QueryContext 1 ctx query [] (wrapped TB) = Ok (Some [], None) (exhausted TB) /\
  now (exhausted TB) = 0%Q /\ tokens_consumed 1 (exhausted TB) = 1.
Proof. repeat split. Qed.

Lemma first_query_admitted_EB :
  QueryContext 1 ctx query [] (wrapped EB) = Ok (Some [], None) (exhausted EB) /\
  now (exhausted EB) = 0%Q /\ tokens_consumed 1 (exhausted EB) = 1.
Proof. repeat split. Qed.

(** The world after the second acquire on the token bucket: it failed
    when the context expired. *)
Lemma second_wait_denied_TB :
  limiter_Wait 1 ctx (exhausted TB) =
    Ok (Some DeadlineExceeded) (world_after (limiter_Wait 1 ctx) (exhausted TB)) /\
  Qeq (now (world_after (limiter_Wait 1 ctx) (exhausted TB))) (1 # 10).
Proof. repeat split. Qed.

Lemma admission_failure_is_returned_witness :
  QueryContext 1 ctx query [] (exhausted EB) =
    Ok (None, Some (errorString "rate: Wait(n=1) would exceed context deadline"))
       (world_after (limiter_Wait 1 ctx) (exhausted EB)) /\
  ExecContext 1 ctx query [] (exhausted EB) =
    Ok (None, Some (errorString "rate: Wait(n=1) would exceed context deadline"))
       (world_after (limiter_Wait 1 ctx) (exhausted EB)) /\
  PrepareContext 1 ctx query (exhausted EB) =
    Ok (None, Some (errorString "rate: Wait(n=1) would exceed context deadline"))
       (world_after (limiter_Wait 1 ctx) (exhausted EB)) /\
  db_calls (world_after (limiter_Wait 1 ctx) (exhausted EB)) =
    db_calls (exhausted EB) /\
  sqlDBs (world_after (limiter_Wait 1 ctx) (exhausted EB)) =
    sqlDBs (exhausted EB).
Proof.
  apply (admission_failure_is_returned (exhausted EB) _ 1 facade ctx query []
           (errorString "rate: Wait(n=1) would exceed context deadline")).
  - reflexivity.
  - reflexivity.
Defined.

(** C1, as stated, fails.  The context of the scenario has a deadline and
    is never cancelled, so its error is [DeadlineExceeded]; the second
    query is refused because the deadline cannot be met, and what it
    returns is the limiter's own error, not the context's. *)
Lemma admission_error_need_not_be_the_contexts :
  ~ (forall (RL : RateLimiter) (SQL : SqlDB) (w w1 : World) (r : ptr)
            (f : RateLimitedDB) (c : Context) (q : string) (args : list any)
            (s : Time) (e_ctx e : error),
       facades w !! r = Some f ->
       ctx_signal c = Some (s, e_ctx) ->
       limiter_Wait (limiter f) c w = Ok (Some e) w1 ->
       QueryContext r c q args w = Ok (None, Some e_ctx) w1).
Proof.
  intros H.
  specialize (H EB MemDB.sqldb (exhausted EB)
                (world_after (limiter_Wait 1 ctx) (exhausted EB)) 1 facade
                ctx query [] (1 # 10)%Q DeadlineExceeded
                (errorString "rate: Wait(n=1) would exceed context deadline")
                eq_refl eq_refl eq_refl).
  assert (E : QueryContext 1 ctx query [] (exhausted EB) =
              Ok (None, Some (errorString
                                "rate: Wait(n=1) would exceed context deadline"))
                 (world_after (limiter_Wait 1 ctx) (exhausted EB)))
    by reflexivity.
  rewrite E in H. discriminate H.
Qed.

Lemma admitted_call_is_delegated_verbatim_witness :
  QueryContext 1 ctx query [] (wrapped TB) =
    Ok (Some [], None) (exhausted TB) /\
  ExecContext 1 ctx "INSERT" [AnyString "Bob"] (wrapped TB) =
    Ok (Some 1%Z, None)
       (@after_call TB MemDB.sqldb 1 (CallExec ctx "INSERT" [AnyString "Bob"])
          (MemDB.mkDB false ["INSERT"%string])
          (world_after (limiter_Wait 1 ctx) (wrapped TB))).
Proof.
  destruct (admitted_call_is_delegated_verbatim (wrapped TB)
              (world_after (limiter_Wait 1 ctx) (wrapped TB)) 1 facade
              MemDB.open ctx query [])
    as (Hq & _); [reflexivity ..|].
  destruct (admitted_call_is_delegated_verbatim (wrapped TB)
              (world_after (limiter_Wait 1 ctx) (wrapped TB)) 1 facade
              MemDB.open ctx "INSERT" [AnyString "Bob"])
    as (_ & _ & He & _); [reflexivity ..|].
  split; [rewrite Hq; reflexivity | exact He].
Defined.

Lemma QueryRowContext_always_delegates_witness :
  exists row w',
    QueryRowContext 1 ctx query [] (exhausted TB) = Ok row w' /\
    Row_Scan row = Some DeadlineExceeded /\
    db_calls w' = db_calls (exhausted TB) ++ [(1, CallQueryRow ctx query [])].
Proof.
  destruct (QueryRowContext_always_delegates (exhausted TB)
              (world_after (limiter_Wait 1 ctx) (exhausted TB)) 1 facade
              MemDB.open ctx query [] (Some DeadlineExceeded))
    as (Hq & Hc); [reflexivity ..|].
  eexists _, _. split; [exact Hq|]. split; [reflexivity | exact Hc].
Defined.

Lemma ungated_methods_delegate_witness :
  Ping 1 (exhausted TB) = Ok None (@after_call TB MemDB.sqldb 1 CallPing MemDB.open (exhausted TB)) /\
  Close 1 (exhausted TB) =
    Ok None (@after_call TB MemDB.sqldb 1 CallClose (MemDB.mkDB true []) (exhausted TB)) /\
  limiter_untouched (exhausted TB)
    (@after_call TB MemDB.sqldb 1 CallClose (MemDB.mkDB true []) (exhausted TB)).
Proof.
  destruct (ungated_methods_delegate (exhausted TB) 1 facade MemDB.open ctx)
    as (Hc & Hp & _ & Hu & _); [reflexivity ..|].
  split; [exact Hp|]. split; [exact Hc | exact Hu].
Defined.

Lemma facade_has_no_state_of_its_own_witness :
  Close 1 (exhausted TB) =
    Ok None (@after_call TB MemDB.sqldb 1 CallClose (MemDB.mkDB true []) (exhausted TB)) /\
  facades (@after_call TB MemDB.sqldb 1 CallClose (MemDB.mkDB true []) (exhausted TB)) =
    facades (exhausted TB).
Proof.
  destruct (facade_has_no_state_of_its_own (exhausted TB) 1 facade MemDB.open)
    as (_ & Hc & Hf & _); [reflexivity ..|].
  split; [exact Hc | exact Hf].
Defined.

(** C3.  The second single-row query of the scenario, on a limiter that
    reports at once a deadline it cannot meet: the acquire fails, the
    connection is called all the same, while the context is still live,
    and scanning the returned row reports no error. *)
Theorem QueryRowContext_hides_denied_admission :
  exists e w1 row w',
    wait 1 ctx (exhausted EB) = Ok (Some e) w1 /\
    QueryRowContext 1 ctx query [] (exhausted EB) = Ok row w' /\
    Row_Scan row = None /\
    db_calls w' = db_calls (exhausted EB) ++ [(1, CallQueryRow ctx query [])] /\
    tokens_consumed 1 w' = tokens_consumed 1 (exhausted EB) /\
    ctx_Err ctx (now w') = None.
Proof.
  eexists _, _, _, _. repeat split.
Qed.

End ScenarioFacts.

Module TokenBucketRun.
Import TokenBucket.
Local Open Scope Q_scope.

Lemma cold_start_grants_burst_then_waits_witness :
  exists bB,
    Wait_times 3 (NewLimiter (PerSecond 2) 3) 5 = Some (repeat (None, 5) 3, bB) /\
    tokens bB == 0 /\
    exists t b', Wait bB Background 5 = Some (None, t, b') /\ t == 5 + 1 / 2.
Proof.
  destruct (TokenBucketFacts.cold_start_grants_burst_then_waits 3 2 5)
    as (_ & bB & Hw & Ht & (t & b' & Hn & Hwhen & _) & _);
    [lia | reflexivity |].
  exists bB. split; [exact Hw|]. split; [exact Ht|].
  exists t, b'. split; [exact Hn | exact Hwhen].
Defined.

End TokenBucketRun.

(** ** What sequences of operations write to the logs *)

Section Traces.
Context {RL : RateLimiter} {SQL : SqlDB}.
Implicit Types (w : World) (r l d : ptr) (f : RateLimitedDB) (ctx : Context).

Lemma effect_refl f w : effect f [] [] w w.
Proof. unfold effect. rewrite !app_nil_r. repeat split. Qed.

Lemma effect_trans f ws1 cs1 ws2 cs2 w w1 w2 :
  effect f ws1 cs1 w w1 -> effect f ws2 cs2 w1 w2 ->
  effect f (ws1 ++ ws2) (cs1 ++ cs2) w w2.
Proof.
  intros (Hl1 & Hc1 & Hf1 & Hd1 & Hm1 & Hdd1 & Hdm1)
         (Hl2 & Hc2 & Hf2 & Hd2 & Hm2 & Hdd2 & Hdm2).
  unfold effect. rewrite Hl2, Hl1, Hc2, Hc1, Hf2, Hf1, Hdd2, Hdd1, Hdm2, Hdm1.
  rewrite <- !app_assoc. repeat split.
  - intros d' Hd'. now rewrite Hd2, Hd1.
  - intros l' Hl'. now rewrite Hm2, Hm1.
Qed.

Lemma limiter_Wait_effect f ctx w err w1 :
  limiter_Wait (limiter f) ctx w = Ok err w1 ->
  effect f [mkWaitCall (limiter f) ctx err] [] w w1.
Proof.
  unfold limiter_Wait.
  destruct (limiters w !! limiter f) as [lim|] eqn:Hlim; [|discriminate].
  destruct (Limiter_Wait lim ctx (now w)) as [[[e t] lim']|]; [|discriminate].
  intros E. inversion E; subst. unfold effect; cbn.
  rewrite app_nil_r. repeat split.
  - intros l' Hl'. now apply lookup_insert_ne.
  - apply dom_insert_lookup_L. now rewrite Hlim.
Qed.

Lemma sqlDB_call_effect {A : Type} f c (op : sql_DB -> Time -> A * sql_DB) w a w' :
  sqlDB_call (db f) c op w = Ok a w' -> effect f [] [(db f, c)] w w'.
Proof.
  unfold sqlDB_call.
  destruct (sqlDBs w !! db f) as [s|] eqn:Hs; [|discriminate].
  intros E. inversion E; subst. unfold effect; cbn.
  rewrite app_nil_r. repeat split.
  - intros d' Hd'. now apply lookup_insert_ne.
  - apply dom_insert_lookup_L. now rewrite Hs.
Qed.

Lemma direct_effect f c w ret w' :
  direct (db f) c w = Ok ret w' -> effect f [] [(db f, c)] w w'.
Proof.
  destruct c; cbn; intros E; apply fmap_Ok_inv in E as (a & E & _);
    eapply sqlDB_call_effect; exact E.
Qed.

(** A method that tests the error of [wait]. *)
Lemma checked_effect {A : Type} r f ctx c (op : sql_DB -> Time -> (A * option error) * sql_DB)
    (none : A) w x w' :
  facades w !! r = Some f ->
  (err ← wait r ctx;
   match err with
   | Some e => mret (none, Some e)
   | None => f' ← load r; sqlDB_call (db f') c op
   end) w = Ok x w' ->
  exists err,
    effect f [mkWaitCall (limiter f) ctx err]
      (match err with Some _ => [] | None => [(db f, c)] end) w w'.
Proof.
  intros Hf E.
  apply bind_Ok_inv in E as (err & w1 & Hw & E).
  rewrite (wait_load _ _ _ _ Hf) in Hw.
  pose proof (limiter_Wait_effect _ _ _ _ _ Hw) as H1.
  exists err. destruct err as [e|].
  - inversion E; subst. exact H1.
  - apply bind_Ok_inv in E as (f' & w2 & Hload & E).
    apply load_Ok_inv in Hload as [Hf' ->].
    destruct H1 as (Hl1 & Hc1 & Hf1 & Hrest).
    rewrite Hf1, Hf in Hf'. inversion Hf'; subst f'.
    apply sqlDB_call_effect in E.
    exact (effect_trans _ _ _ _ _ _ _ _ (conj Hl1 (conj Hc1 (conj Hf1 Hrest))) E).
Qed.

(** One operation: its request, if it makes one, then its call, if it
    makes one. *)
Lemma run_op_effect r f o w ret w' :
  facades w !! r = Some f ->
  run_op r o w = Ok ret w' ->
  exists err, effect f (expected_waits f o err) (expected_calls f o err) w w'.
Proof.
  intros Hf E. destruct o; cbn in E.
  - apply fmap_Ok_inv in E as (a & E & _).
    apply (checked_effect r f ctx (CallQuery ctx query args) _ None _ _ _ Hf) in E.
    exact E.
  - apply fmap_Ok_inv in E as (a & E & _). unfold QueryRowContext in E.
    apply bind_Ok_inv in E as (err & w1 & Hw & E).
    rewrite (wait_load _ _ _ _ Hf) in Hw.
    pose proof (limiter_Wait_effect _ _ _ _ _ Hw) as H1.
    apply bind_Ok_inv in E as (f' & w2 & Hload & E).
    apply load_Ok_inv in Hload as [Hf' ->].
    assert (Hf1 : facades w1 = facades w) by apply H1.
    rewrite Hf1, Hf in Hf'. inversion Hf'; subst f'.
    apply sqlDB_call_effect in E.
    exists err. exact (effect_trans _ _ _ _ _ _ _ _ H1 E).
  - apply fmap_Ok_inv in E as (a & E & _).
    apply (checked_effect r f ctx (CallExec ctx query args) _ None _ _ _ Hf) in E.
    exact E.
  - apply fmap_Ok_inv in E as (a & E & _).
    apply (checked_effect r f ctx (CallPrepare ctx query) _ None _ _ _ Hf) in E.
    exact E.
  - apply fmap_Ok_inv in E as (a & E & _).
    apply bind_Ok_inv in E as (f' & w2 & Hload & E).
    apply load_Ok_inv in Hload as [Hf' ->].
    rewrite Hf in Hf'. inversion Hf'; subst f'.
    exists None. eapply sqlDB_call_effect; exact E.
  - apply fmap_Ok_inv in E as (a & E & _).
    apply bind_Ok_inv in E as (f' & w2 & Hload & E).
    apply load_Ok_inv in Hload as [Hf' ->].
    rewrite Hf in Hf'. inversion Hf'; subst f'.
    exists None. eapply sqlDB_call_effect; exact E.
  - apply fmap_Ok_inv in E as (a & E & _).
    apply bind_Ok_inv in E as (f' & w2 & Hload & E).
    apply load_Ok_inv in Hload as [Hf' ->].
    rewrite Hf in Hf'. inversion Hf'; subst f'.
    exists None. eapply sqlDB_call_effect; exact E.
  - apply fmap_Ok_inv in E as (a & E & _).
    apply bind_Ok_inv in E as (f' & w2 & Hload & E).
    apply load_Ok_inv in Hload as [_ ->]. inversion E; subst.
    exists None. apply effect_refl.
  - apply bind_Ok_inv in E as (d & w1 & Hraw & E).
    apply bind_Ok_inv in Hraw as (f' & w2 & Hload & Hraw).
    apply load_Ok_inv in Hload as [Hf' ->].
    rewrite Hf in Hf'. inversion Hf'; subst f'. inversion Hraw; subst.
    exists None. eapply direct_effect; exact E.
Qed.

(** A sequence of operations: one answer of [Wait] per operation explains
    both logs. *)
Lemma run_ops_effect r f os : forall w rets w',
  facades w !! r = Some f ->
  run_ops r os w = Ok rets w' ->
  exists errs,
    length errs = length os /\
    effect f (waits_of f os errs) (calls_of f os errs) w w'.
Proof.
  induction os as [|o os IH]; intros w rets w' Hf E.
  - inversion E; subst. exists []. split; [reflexivity | apply effect_refl].
  - cbn [run_ops] in E.
    apply bind_Ok_inv in E as (x & w1 & Ho & E).
    apply bind_Ok_inv in E as (xs & w2 & Hos & E).
    inversion E; subst w2 rets; clear E.
    destruct (run_op_effect _ _ _ _ _ _ Hf Ho) as (err & H1).
    assert (Hf1 : facades w1 !! r = Some f).
    { destruct H1 as (_ & _ & -> & _). exact Hf. }
    destruct (IH _ _ _ Hf1 Hos) as (errs & Hlen & H2).
    exists (err :: errs). split; [cbn; now rewrite Hlen|].
    cbn [waits_of calls_of]. exact (effect_trans _ _ _ _ _ _ _ _ H1 H2).
Qed.

End Traces.

Section Sequences.
Context {RL : RateLimiter} {SQL : SqlDB}.
Implicit Types (w : World) (r l d : ptr) (f : RateLimitedDB) (ctx : Context).

Lemma waits_of_on f os : forall errs,
  Forall (fun c => wait_on c = limiter f) (waits_of f os errs).
Proof.
  induction os as [|o os IH]; intros [|e errs]; cbn; try constructor.
  apply Forall_app. split; [|apply IH].
  unfold expected_waits. destruct (gated o); repeat constructor.
Qed.

Lemma calls_of_on f os : forall errs,
  Forall (fun c => c.1 = db f) (calls_of f os errs).
Proof.
  induction os as [|o os IH]; intros [|e errs]; cbn; try constructor.
  apply Forall_app. split; [|apply IH].
  unfold expected_calls.
  destruct (op_call o); [|constructor].
  destruct (returns_wait_error o); [destruct e|]; repeat constructor.
Qed.

Lemma calls_of_sublist f os : forall errs,
  sublist (snd <$> calls_of f os errs) (omap op_call os).
Proof.
  induction os as [|o os IH]; intros [|e errs]; cbn [calls_of];
    try apply sublist_nil_l.
  rewrite fmap_app. cbn [omap list_omap]. unfold expected_calls.
  destruct (op_call o) as [c|]; [|apply IH].
  destruct (returns_wait_error o); [destruct e|]; cbn.
  - apply sublist_cons, IH.
  - apply sublist_skip, IH.
  - apply sublist_skip, IH.
Qed.

Lemma expected_calls_rows f o e :
  filter (fun c => row_call c = true) (snd <$> expected_calls f o e) =
  filter (fun c => row_call c = true) (omap op_call [o]).
Proof.
  destruct o as [| | | | | | | |c]; try destruct e; try reflexivity;
    destruct c; reflexivity.
Qed.

Lemma calls_of_rows f os : forall errs,
  length errs = length os ->
  filter (fun c => row_call c = true) (snd <$> calls_of f os errs) =
  filter (fun c => row_call c = true) (omap op_call os).
Proof.
  induction os as [|o os IH]; intros [|e errs] Hlen; try discriminate Hlen;
    [reflexivity|].
  cbn [calls_of]. rewrite fmap_app, filter_app.
  injection Hlen as Hlen. rewrite (IH errs Hlen), expected_calls_rows.
  rewrite <- filter_app. f_equal.
  cbn [omap list_omap]. now destruct (op_call o).
Qed.

Lemma calls_of_checked f os : forall errs,
  length errs = length os ->
  Forall (fun o => checked_or_ungated o = true) os ->
  length (filter (fun c => checked_call c.2 = true) (calls_of f os errs)) =
  length (filter (fun c => granted c = true) (waits_of f os errs)).
Proof.
  induction os as [|o os IH]; intros [|e errs] Hlen Hall; try discriminate Hlen;
    [reflexivity|].
  cbn [calls_of waits_of]. rewrite !filter_app, !length_app.
  injection Hlen as Hlen. inversion Hall as [|? ? Ho Hos]; subst.
  rewrite (IH errs Hlen Hos). f_equal.
  destruct o; try discriminate Ho; unfold expected_calls, expected_waits; cbn;
    try destruct e; reflexivity.
Qed.

(** X1.  Over every sequence of operations on a facade, the connection
    object receives only calls that were issued, in the order they were
    issued, each at most once and with its arguments as given; all of
    them go to the facade's own connection object, and every other
    connection object is left as it was. *)
Theorem facade_forwards_issued_calls_in_order r f os w rets w' :
  facades w !! r = Some f ->
  run_ops r os w = Ok rets w' ->
  exists cs,
    db_calls w' = db_calls w ++ cs /\
    Forall (fun c => c.1 = db f) cs /\
    sublist (snd <$> cs) (omap op_call os) /\
    forall d', d' <> db f -> sqlDBs w' !! d' = sqlDBs w !! d'.
Proof.
  intros Hf E.
  destruct (run_ops_effect _ _ _ _ _ _ Hf E) as (errs & _ & _ & Hc & _ & Hd & _).
  exists (calls_of f os errs).
  split; [exact Hc|]. split; [apply calls_of_on|].
  split; [apply calls_of_sublist | exact Hd].
Qed.

(** X2.  Over every sequence made of the facade's methods other than
    [QueryRowContext], the number of [QueryContext], [ExecContext] and
    [PrepareContext] calls that reached the connection object is the
    number of tokens the limiter handed out: no such call goes through
    without a token. *)
Theorem checked_calls_match_tokens r f os w rets w' :
  facades w !! r = Some f ->
  Forall (fun o => checked_or_ungated o = true) os ->
  run_ops r os w = Ok rets w' ->
  exists cs,
    db_calls w' = db_calls w ++ cs /\
    tokens_consumed (limiter f) w' =
      tokens_consumed (limiter f) w +
      length (filter (fun c => checked_call c.2 = true) cs).
Proof.
  intros Hf Hall E.
  destruct (run_ops_effect _ _ _ _ _ _ Hf E) as (errs & Hlen & Hl & Hc & _).
  exists (calls_of f os errs). split; [exact Hc|].
  rewrite (tokens_consumed_app _ _ _ _ Hl (waits_of_on f os errs)).
  now rewrite (calls_of_checked f os errs Hlen Hall).
Qed.

(** X3.  Over every sequence of operations, the single-row queries the
    connection object receives are exactly the single-row queries that
    were issued, in order, whatever the limiter answered: a denied
    [QueryRowContext] reaches the connection like a granted one. *)
Theorem row_queries_all_reach_the_connection r f os w rets w' :
  facades w !! r = Some f ->
  run_ops r os w = Ok rets w' ->
  exists cs,
    db_calls w' = db_calls w ++ cs /\
    filter (fun c => row_call c = true) (snd <$> cs) =
    filter (fun c => row_call c = true) (omap op_call os).
Proof.
  intros Hf E.
  destruct (run_ops_effect _ _ _ _ _ _ Hf E) as (errs & Hlen & _ & Hc & _).
  exists (calls_of f os errs). split; [exact Hc|].
  now apply calls_of_rows.
Qed.

Lemma requests_other l f ws w w' :
  lim_calls w' = lim_calls w ++ ws ->
  Forall (fun c => wait_on c = limiter f) ws ->
  l <> limiter f ->
  requests l w' = requests l w.
Proof.
  intros E Hall Hne. unfold requests. rewrite E, filter_app.
  assert (Hnil : filter (fun c => wait_on c = l) ws = []).
  { clear E. induction Hall as [|c ws Hc _ IH]; [reflexivity|].
    rewrite filter_cons_False by congruence. exact IH. }
  rewrite Hnil. apply app_nil_r.
Qed.

(** X4.  Over every sequence of operations on a facade, no facade object
    changes, no limiter or connection object is created or dropped, and
    every limiter other than the facade's own keeps its state and
    receives no request. *)
Theorem operations_leave_other_limiters_alone r f os w rets w' :
  facades w !! r = Some f ->
  run_ops r os w = Ok rets w' ->
  facades w' = facades w /\
  dom (limiters w') = dom (limiters w) /\
  dom (sqlDBs w') = dom (sqlDBs w) /\
  forall l, l <> limiter f ->
    limiters w' !! l = limiters w !! l /\ requests l w' = requests l w.
Proof.
  intros Hf E.
  destruct (run_ops_effect _ _ _ _ _ _ Hf E)
    as (errs & _ & Hl & _ & Hfac & _ & Hm & Hdd & Hdm).
  repeat split; try assumption.
  - now apply Hm.
  - exact (requests_other _ _ _ _ _ Hl (waits_of_on f os errs) H).
Qed.

(** X5.  Wrapping the same handle twice gives two facades over the same
    connection, each with a limiter of its own: whatever is run on the
    first, the limiter of the second keeps its state and receives no
    request. *)
Theorem wrapping_twice_gives_independent_limiters
    w d limit1 burst1 limit2 burst2 :
  exists r1 r2 l1 l2 w2,
    (r1 ← Wrap d limit1 burst1; r2 ← Wrap d limit2 burst2; mret (r1, r2)) w =
      Ok (r1, r2) w2 /\
    r1 <> r2 /\ l1 <> l2 /\
    facades w2 !! r1 = Some {| db := d; limiter := l1 |} /\
    facades w2 !! r2 = Some {| db := d; limiter := l2 |} /\
    limiters w2 !! l1 = Some (rate_NewLimiter limit1 burst1) /\
    limiters w2 !! l2 = Some (rate_NewLimiter limit2 burst2) /\
    forall os rets w',
      run_ops r1 os w2 = Ok rets w' ->
      limiters w' !! l2 = limiters w2 !! l2 /\ requests l2 w' = requests l2 w2.
Proof.
  set (l1 := fresh_ptr (limiters w)).
  set (r1 := fresh_ptr (facades w)).
  set (m1 := <[l1 := rate_NewLimiter limit1 burst1]> (limiters w)).
  set (h1 := <[r1 := {| db := d; limiter := l1 |}]> (facades w)).
  set (l2 := fresh_ptr m1).
  set (r2 := fresh_ptr h1).
  destruct (fresh_ptr_spec m1) as [_ Hl2]. fold l2 in Hl2.
  destruct (fresh_ptr_spec h1) as [_ Hr2]. fold r2 in Hr2.
  assert (Hl : l1 <> l2).
  { intros E. rewrite <- E in Hl2. unfold m1 in Hl2.
    rewrite lookup_insert_eq in Hl2. discriminate. }
  assert (Hr : r1 <> r2).
  { intros E. rewrite <- E in Hr2. unfold h1 in Hr2.
    rewrite lookup_insert_eq in Hr2. discriminate. }
  exists r1, r2, l1, l2,
    (mkWorld (now w) (sqlDBs w)
       (<[l2 := rate_NewLimiter limit2 burst2]> m1)
       (<[r2 := {| db := d; limiter := l2 |}]> h1)
       (db_calls w) (lim_calls w)).
  split; [reflexivity|]. split; [exact Hr|]. split; [exact Hl|]. cbn.
  assert (Hf1 : <[r2 := {| db := d; limiter := l2 |}]> h1 !! r1 =
                Some {| db := d; limiter := l1 |}).
  { rewrite lookup_insert_ne by congruence. apply lookup_insert_eq. }
  split; [exact Hf1|].
  split; [apply lookup_insert_eq|].
  split; [rewrite lookup_insert_ne by congruence; apply lookup_insert_eq|].
  split; [apply lookup_insert_eq|].
  intros os rets w' E.
  eapply run_ops_effect in E as (errs & _ & Hlc & _ & _ & _ & Hm & _);
    [|exact Hf1].
  split.
  - apply Hm. cbn. congruence.
  - apply (requests_other _ _ _ _ _ Hlc (waits_of_on _ os errs)). cbn. congruence.
Qed.

End Sequences.

(** ** Nil handles *)

Section Edges.
Context {RL : RateLimiter} {SQL : SqlDB}.
Implicit Types (w : World) (r l d : ptr) (f : RateLimitedDB) (ctx : Context).

(** X6.  No method guards against a nil receiver: on a pointer that
    points to no facade, every operation panics. *)
Theorem operations_on_missing_facade_panic r o w :
  facades w !! r = None -> run_op r o w = Panic.
Proof.
  intros Hr.
  destruct o; cbn;
    unfold fmap, M_fmap, QueryContext, QueryRowContext, ExecContext,
      PrepareContext, Close, Ping, Conn, Raw, wait, mbind, M_bind, load;
    now rewrite Hr.
Qed.

(** X7.  A facade over a handle that points to no connection object (a
    nil [db]): [Raw] still returns the handle; [Close], [Ping] and [Conn]
    panic; a gated method asks the limiter first, so [QueryContext],
    [ExecContext] and [PrepareContext] return the error of a denied
    acquire without panicking and panic only once admitted, while
    [QueryRowContext] panics whatever the limiter answered. *)
Theorem facade_over_missing_connection r f w :
  facades w !! r = Some f ->
  sqlDBs w !! db f = None ->
  Raw r w = Ok (db f) w /\
  Close r w = Panic /\ Ping r w = Panic /\ (forall ctx, Conn r ctx w = Panic) /\
  forall ctx query args err w1,
    limiter_Wait (limiter f) ctx w = Ok err w1 ->
    QueryRowContext r ctx query args w = Panic /\
    QueryContext r ctx query args w =
      match err with Some e => Ok (None, Some e) w1 | None => Panic end /\
    ExecContext r ctx query args w =
      match err with Some e => Ok (None, Some e) w1 | None => Panic end /\
    PrepareContext r ctx query w =
      match err with Some e => Ok (None, Some e) w1 | None => Panic end.
Proof.
  intros Hf Hd.
  pose proof (load_Some _ _ _ Hf) as Hl.
  split; [unfold Raw; now rewrite (bind_Ok _ _ _ _ _ Hl)|].
  split; [unfold Close; rewrite (bind_Ok _ _ _ _ _ Hl);
          unfold sqlDB_Close, sqlDB_call; now rewrite Hd|].
  split; [unfold Ping; rewrite (bind_Ok _ _ _ _ _ Hl);
          unfold sqlDB_Ping, sqlDB_call; now rewrite Hd|].
  split; [intros ctx; unfold Conn; rewrite (bind_Ok _ _ _ _ _ Hl);
          unfold sqlDB_Conn, sqlDB_call; now rewrite Hd|].
  intros ctx query args err w1 Hw.
  assert (Hwait : wait r ctx w = Ok err w1) by now rewrite (wait_load _ _ _ _ Hf).
  destruct (limiter_Wait_frame _ _ _ _ _ Hw) as (Hf1 & Hs1 & _).
  assert (Hl1 : load r w1 = Ok f w1) by (apply load_Some; now rewrite Hf1).
  assert (Hd1 : sqlDBs w1 !! db f = None) by now rewrite Hs1.
  unfold QueryRowContext, QueryContext, ExecContext, PrepareContext.
  rewrite !(bind_Ok _ _ _ _ _ Hwait).
  repeat split; try destruct err; try reflexivity;
    rewrite (bind_Ok _ _ _ _ _ Hl1);
    unfold sqlDB_QueryRowContext, sqlDB_QueryContext, sqlDB_ExecContext,
      sqlDB_PrepareContext, sqlDB_call; now rewrite Hd1.
Qed.

End Edges.

Section Contexts.
Context {RL : RateLimiter} {SQL : SqlDB}.
Implicit Types (w : World) (r l d : ptr) (f : RateLimitedDB) (ctx : Context).

Lemma waits_of_ctx f os : forall errs,
  length errs = length os ->
  wait_ctx <$> waits_of f os errs = op_ctx <$> filter (fun o => gated o = true) os.
Proof.
  induction os as [|o os IH]; intros [|e errs] Hlen; try discriminate Hlen;
    [reflexivity|].
  injection Hlen as Hlen. cbn [waits_of]. rewrite fmap_app, (IH errs Hlen).
  unfold expected_waits. destruct (gated o) eqn:Hg.
  - now rewrite filter_cons_True by assumption.
  - rewrite filter_cons_False; [reflexivity|]. now rewrite Hg.
Qed.

(** X9.  Over every sequence of operations, the requests the limiter
    receives carry, in order, the contexts the callers gave to the gated
    operations: [wait] hands the caller's own context to [Wait], so that
    cancelling it is what ends the wait. *)
Theorem requests_carry_the_callers_contexts r f os w rets w' :
  facades w !! r = Some f ->
  run_ops r os w = Ok rets w' ->
  exists ws,
    lim_calls w' = lim_calls w ++ ws /\
    wait_ctx <$> ws = op_ctx <$> filter (fun o => gated o = true) os.
Proof.
  intros Hf E.
  destruct (run_ops_effect _ _ _ _ _ _ Hf E) as (errs & Hlen & Hl & _).
  exists (waits_of f os errs). split; [exact Hl | now apply waits_of_ctx].
Qed.

End Contexts.

(** ** The extra properties, run *)

Module SequenceRuns.
Import Scenario.

(** A granted query, a ping, a denied query. *)
Lemma facade_forwards_issued_calls_in_order_witness :
  exists cs,
    db_calls (world_after
                (run_ops 1 [OpQueryContext ctx query []; OpPing;
                            OpQueryContext ctx query []]) (wrapped TB)) =
      db_calls (wrapped TB) ++ cs /\
    sublist (snd <$> cs)
      [CallQuery ctx query []; CallPing; CallQuery ctx query []].
Proof.
  edestruct (facade_forwards_issued_calls_in_order (RL := TB) (SQL := MemDB.sqldb)
               1 facade
               [OpQueryContext ctx query []; OpPing; OpQueryContext ctx query []]
               (wrapped TB))
    as (cs & Hc & _ & Hs & _); [reflexivity | reflexivity |].
  exists cs. split; [exact Hc | exact Hs].
Defined.

Lemma checked_calls_match_tokens_witness :
  exists cs,
    db_calls (world_after
                (run_ops 1 [OpQueryContext ctx query []; OpPing;
                            OpQueryContext ctx query []]) (wrapped TB)) =
      db_calls (wrapped TB) ++ cs /\
    tokens_consumed 1
      (world_after
         (run_ops 1 [OpQueryContext ctx query []; OpPing;
                     OpQueryContext ctx query []]) (wrapped TB)) =
      0 + length (filter (fun c => checked_call c.2 = true) cs).
Proof.
  edestruct (checked_calls_match_tokens (RL := TB) (SQL := MemDB.sqldb)
               1 facade
               [OpQueryContext ctx query []; OpPing; OpQueryContext ctx query []]
               (wrapped TB))
    as (cs & Hc & Ht); [reflexivity | repeat constructor | reflexivity |].
  exists cs. split; [exact Hc | exact Ht].
Defined.

(** Two single-row queries: the first granted, the second denied. *)
Lemma row_queries_all_reach_the_connection_witness :
  exists cs,
    db_calls (world_after
                (run_ops 1 [OpQueryRowContext ctx query [];
                            OpQueryRowContext ctx query []]) (wrapped TB)) =
      db_calls (wrapped TB) ++ cs /\
    filter (fun c => row_call c = true) (snd <$> cs) =
      [CallQueryRow ctx query []; CallQueryRow ctx query []].
Proof.
  edestruct (row_queries_all_reach_the_connection (RL := TB) (SQL := MemDB.sqldb)
               1 facade
               [OpQueryRowContext ctx query []; OpQueryRowContext ctx query []]
               (wrapped TB))
    as (cs & Hc & Hr); [reflexivity | reflexivity |].
  exists cs. split; [exact Hc | exact Hr].
Defined.

Lemma operations_leave_other_limiters_alone_witness :
  facades (world_after
             (run_ops 1 [OpQueryContext ctx query []; OpClose]) (wrapped TB)) =
    facades (wrapped TB) /\
  dom (limiters (world_after
                   (run_ops 1 [OpQueryContext ctx query []; OpClose]) (wrapped TB))) =
    dom (limiters (wrapped TB)).
Proof.
  edestruct (operations_leave_other_limiters_alone (RL := TB) (SQL := MemDB.sqldb)
               1 facade [OpQueryContext ctx query []; OpClose] (wrapped TB))
    as (Hf & Hd & _); [reflexivity | reflexivity |].
  split; [exact Hf | exact Hd].
Defined.

Lemma requests_carry_the_callers_contexts_witness :
  exists ws,
    lim_calls (world_after
                 (run_ops 1 [OpQueryContext ctx query []; OpPing;
                             OpExecContext Background query []]) (wrapped TB)) =
      lim_calls (wrapped TB) ++ ws /\
    wait_ctx <$> ws = [ctx; Background].
Proof.
  edestruct (requests_carry_the_callers_contexts (RL := TB) (SQL := MemDB.sqldb)
               1 facade
               [OpQueryContext ctx query []; OpPing;
                OpExecContext Background query []]
               (wrapped TB))
    as (ws & Hl & Hc); [reflexivity | reflexivity |].
  exists ws. split; [exact Hl | exact Hc].
Defined.

(** Address [0] is nil: no facade lives there. *)
Lemma operations_on_missing_facade_panic_witness :
  run_op nil_ptr OpRaw (wrapped TB) = Panic /\
  run_op nil_ptr (OpQueryContext ctx query []) (wrapped TB) = Panic.
Proof.
  split; apply (operations_on_missing_facade_panic (RL := TB) (SQL := MemDB.sqldb));
    reflexivity.
Defined.

(** [Wrap(nil, rate.Inf, 1)]: the facade is at address [1], its [db] is
    nil. *)
Lemma facade_over_missing_connection_witness :
  Raw 1 (world_after (Wrap nil_ptr Inf 1) (MemDB.world TB)) =
    Ok nil_ptr (world_after (Wrap nil_ptr Inf 1) (MemDB.world TB)) /\
  Close 1 (world_after (Wrap nil_ptr Inf 1) (MemDB.world TB)) = Panic /\
  QueryContext 1 ctx query [] (world_after (Wrap nil_ptr Inf 1) (MemDB.world TB)) =
    Panic.
Proof.
  destruct (facade_over_missing_connection (RL := TB) (SQL := MemDB.sqldb) 1
              {| db := nil_ptr; limiter := 1 |}
              (world_after (Wrap nil_ptr Inf 1) (MemDB.world TB)))
    as (Hraw & Hclose & _ & _ & Hgated); [reflexivity | reflexivity |].
  split; [exact Hraw|]. split; [exact Hclose|].
  edestruct (Hgated ctx query [] None) as (_ & Hq & _); [reflexivity|].
  exact Hq.
Defined.

End SequenceRuns.

(** ** What the limiter is asked *)

Section Requests.
Context {RL : RateLimiter} {SQL : SqlDB}.
Implicit Types (w : World) (r l d : ptr) (f : RateLimitedDB) (ctx : Context).

(** A [Wait] that returns is the limiter's own answer for its state and
    the current time; the limiter and the clock are set to what it said. *)
Lemma limiter_Wait_Ok_inv l ctx w err w1 b :
  limiters w !! l = Some b ->
  limiter_Wait l ctx w = Ok err w1 ->
  exists b',
    Limiter_Wait b ctx (now w) = Some (err, now w1, b') /\
    limiters w1 = <[l := b']> (limiters w) /\
    facades w1 = facades w.
Proof.
  intros Hb. unfold limiter_Wait. rewrite Hb.
  destruct (Limiter_Wait b ctx (now w)) as [[[e t] b']|]; [|discriminate].
  intros E. inversion E; subst. now exists b'.
Qed.

Lemma sqlDB_call_limiter {A : Type} d c (op : sql_DB -> Time -> A * sql_DB) w a w' :
  sqlDB_call d c op w = Ok a w' ->
  now w' = now w /\ limiters w' = limiters w /\ facades w' = facades w.
Proof.
  intros E. apply sqlDB_call_Ok_inv in E as [s' ->]. now cbn.
Qed.

(** A method that starts with [wait] and then, whatever it does with the
    answer, at most calls the connection. *)
Lemma after_wait_replay {A : Type} r f b ctx (k : option error -> M A) w x w' :
  facades w !! r = Some f ->
  limiters w !! limiter f = Some b ->
  (forall err w1 y w2, k err w1 = Ok y w2 ->
     now w2 = now w1 /\ limiters w2 = limiters w1 /\ facades w2 = facades w1) ->
  (wait r ctx ≫= k) w = Ok x w' ->
  exists err b',
    Limiter_Wait b ctx (now w) = Some (err, now w', b') /\
    limiters w' = <[limiter f := b']> (limiters w) /\
    facades w' = facades w.
Proof.
  intros Hf Hb Hk E.
  apply bind_Ok_inv in E as (err & w1 & Hw & E).
  rewrite (wait_load _ _ _ _ Hf) in Hw.
  destruct (limiter_Wait_Ok_inv _ _ _ _ _ _ Hb Hw) as (b' & HW & Hl1 & Hf1).
  apply Hk in E as (Hn & Hl & Hfac).
  exists err, b'. rewrite Hn, Hl, Hfac. now repeat split.
Qed.

Lemma checked_tail_limiter {A : Type} r c
    (op : sql_DB -> Time -> (A * option error) * sql_DB) (none : A) :
  forall err w1 y w2,
    match err with
    | Some e => mret (none, Some e)
    | None => f' ← load r; sqlDB_call (db f') c op
    end w1 = Ok y w2 ->
    now w2 = now w1 /\ limiters w2 = limiters w1 /\ facades w2 = facades w1.
Proof.
  intros [e|] w1 y w2 E.
  - inversion E; subst. now repeat split.
  - apply bind_Ok_inv in E as (f' & w3 & Hload & E).
    apply load_Ok_inv in Hload as [_ ->].
    now apply sqlDB_call_limiter in E.
Qed.

(** One operation asks the limiter what [limiter_replay] says. *)
Lemma run_op_replay r f b o w ret w' :
  facades w !! r = Some f ->
  limiters w !! limiter f = Some b ->
  run_op r o w = Ok ret w' ->
  exists b',
    limiter_replay b (now w) [o] = Some (b', now w') /\
    limiters w' = <[limiter f := b']> (limiters w) /\
    facades w' = facades w.
Proof.
  intros Hf Hb E.
  assert (Hsame : forall w0, now w0 = now w -> limiters w0 = limiters w ->
            facades w0 = facades w -> w' = w0 ->
            exists b', Some (b, now w) = Some (b', now w') /\
              limiters w' = <[limiter f := b']> (limiters w) /\
              facades w' = facades w).
  { intros w0 Hn Hl Hfac ->. exists b. rewrite Hn, Hl, Hfac.
    repeat split. symmetry. now apply insert_id. }
  destruct o; cbn [run_op] in E; cbn [limiter_replay gated op_ctx].
  - apply fmap_Ok_inv in E as (a & E & _).
    eapply (after_wait_replay r f b ctx) in E as (err & b' & HW & Hl & Hfac);
      [|exact Hf|exact Hb|apply checked_tail_limiter].
    exists b'. now rewrite HW.
  - apply fmap_Ok_inv in E as (a & E & _).
    eapply (after_wait_replay r f b ctx) in E as (err & b' & HW & Hl & Hfac);
      [|exact Hf|exact Hb|].
    + exists b'. now rewrite HW.
    + intros err w1 y w2 E1.
      apply bind_Ok_inv in E1 as (f' & w3 & Hload & E1).
      apply load_Ok_inv in Hload as [_ ->].
      now apply sqlDB_call_limiter in E1.
  - apply fmap_Ok_inv in E as (a & E & _).
    eapply (after_wait_replay r f b ctx) in E as (err & b' & HW & Hl & Hfac);
      [|exact Hf|exact Hb|apply checked_tail_limiter].
    exists b'. now rewrite HW.
  - apply fmap_Ok_inv in E as (a & E & _).
    eapply (after_wait_replay r f b ctx) in E as (err & b' & HW & Hl & Hfac);
      [|exact Hf|exact Hb|apply checked_tail_limiter].
    exists b'. now rewrite HW.
  - apply fmap_Ok_inv in E as (a & E & _).
    apply bind_Ok_inv in E as (f' & w2 & Hload & E).
    apply load_Ok_inv in Hload as [_ ->].
    apply sqlDB_call_limiter in E as (Hn & Hl & Hfac). now apply (Hsame w').
  - apply fmap_Ok_inv in E as (a & E & _).
    apply bind_Ok_inv in E as (f' & w2 & Hload & E).
    apply load_Ok_inv in Hload as [_ ->].
    apply sqlDB_call_limiter in E as (Hn & Hl & Hfac). now apply (Hsame w').
  - apply fmap_Ok_inv in E as (a & E & _).
    apply bind_Ok_inv in E as (f' & w2 & Hload & E).
    apply load_Ok_inv in Hload as [_ ->].
    apply sqlDB_call_limiter in E as (Hn & Hl & Hfac). now apply (Hsame w').
  - apply fmap_Ok_inv in E as (a & E & _).
    apply bind_Ok_inv in E as (f' & w2 & Hload & E).
    apply load_Ok_inv in Hload as [_ ->]. inversion E; subst.
    now apply (Hsame w').
  - apply bind_Ok_inv in E as (d & w1 & Hraw & E).
    apply bind_Ok_inv in Hraw as (f' & w2 & Hload & Hraw).
    apply load_Ok_inv in Hload as [_ ->]. inversion Hraw; subst.
    apply direct_frame in E as [s' ->]. now apply (Hsame (after_call (db f') c s' w1)).
Qed.

Lemma limiter_replay_cons b t o os :
  limiter_replay b t (o :: os) =
  match limiter_replay b t [o] with
  | Some (b', t') => limiter_replay b' t' os
  | None => None
  end.
Proof.
  cbn. destruct (gated o); [|reflexivity].
  now destruct (Limiter_Wait b (op_ctx o) t) as [[[e t'] b']|].
Qed.

Lemma run_ops_replay r f os : forall b w rets w',
  facades w !! r = Some f ->
  limiters w !! limiter f = Some b ->
  run_ops r os w = Ok rets w' ->
  exists b',
    limiter_replay b (now w) os = Some (b', now w') /\
    limiters w' = <[limiter f := b']> (limiters w).
Proof.
  induction os as [|o os IH]; intros b w rets w' Hf Hb E.
  - inversion E; subst. exists b. split; [reflexivity|].
    symmetry. now apply insert_id.
  - cbn [run_ops] in E.
    apply bind_Ok_inv in E as (x & w1 & Ho & E).
    apply bind_Ok_inv in E as (xs & w2 & Hos & E).
    inversion E; subst w2 rets; clear E.
    destruct (run_op_replay _ _ _ _ _ _ _ Hf Hb Ho) as (b1 & Hr1 & Hl1 & Hf1).
    assert (Hf' : facades w1 !! r = Some f) by now rewrite Hf1.
    assert (Hb1 : limiters w1 !! limiter f = Some b1)
      by (rewrite Hl1; apply lookup_insert_eq).
    destruct (IH _ _ _ _ Hf' Hb1 Hos) as (b' & Hr & Hl).
    exists b'. rewrite limiter_replay_cons, Hr1. split; [exact Hr|].
    rewrite Hl, Hl1. apply insert_insert_eq.
Qed.

(** C2, as amended.  Over every sequence of operations on a facade that
    returns, the facade's limiter receives exactly one request per gated
    operation, in order, and no other limiter receives any; [Close],
    [Ping], [Conn], [Raw] and the calls on the raw handle ask nothing.
    The state of the limiter and the clock afterwards are those of
    issuing these [Wait]s, one after the other, to the limiter alone:
    what becomes of its tokens is decided by the limiter on those
    requests, and by nothing else the facade does. *)
Theorem limiter_sees_one_Wait_per_gated_operation r f b os w rets w' :
  facades w !! r = Some f ->
  limiters w !! limiter f = Some b ->
  run_ops r os w = Ok rets w' ->
  exists ws b',
    lim_calls w' = lim_calls w ++ ws /\
    length ws = length (filter (fun o => gated o = true) os) /\
    Forall (fun c => wait_on c = limiter f) ws /\
    limiter_replay b (now w) os = Some (b', now w') /\
    limiters w' = <[limiter f := b']> (limiters w).
Proof.
  intros Hf Hb E.
  destruct (run_ops_effect _ _ _ _ _ _ Hf E) as (errs & Hlen & Hl & _).
  destruct (run_ops_replay _ _ _ _ _ _ _ Hf Hb E) as (b' & Hr & Hm).
  exists (waits_of f os errs), b'.
  split; [exact Hl|]. split.
  - pose proof (waits_of_ctx f os errs Hlen) as Hc.
    apply (f_equal length) in Hc. now rewrite !length_fmap in Hc.
  - split; [apply waits_of_on|]. split; [exact Hr | exact Hm].
Qed.

End Requests.

Module RequestRuns.
Import Scenario.

(** A query (granted), a query on the raw handle, a query (refused). *)
Lemma limiter_sees_one_Wait_per_gated_operation_witness :
  exists ws b',
    lim_calls (world_after
                 (run_ops 1 [OpQueryContext ctx query [];
                             OpOnRaw (CallQuery ctx query []);
                             OpQueryContext ctx query []]) (wrapped EB)) =
      lim_calls (wrapped EB) ++ ws /\
    length ws = 2 /\
    limiter_replay (RL := EB) (TokenBucket.NewLimiter (PerSecond (1 # 10)) 1) 0%Q
      [OpQueryContext ctx query [];
       OpOnRaw (CallQuery ctx query []);
       OpQueryContext ctx query []] =
      Some (b', now (world_after
                       (run_ops 1 [OpQueryContext ctx query [];
                                   OpOnRaw (CallQuery ctx query []);
                                   OpQueryContext ctx query []]) (wrapped EB))).
Proof.
  edestruct (limiter_sees_one_Wait_per_gated_operation
               (RL := EB) (SQL := MemDB.sqldb) 1 facade
               (TokenBucket.NewLimiter (PerSecond (1 # 10)) 1)
               [OpQueryContext ctx query [];
                OpOnRaw (CallQuery ctx query []);
                OpQueryContext ctx query []]
               (wrapped EB))
    as (ws & b' & Hl & Hn & _ & Hr & _); [reflexivity ..|].
  exists ws, b'. split; [exact Hl|]. split; [exact Hn | exact Hr].
Defined.

(** C2, as stated, fails.  The second query of the scenario is a gated
    operation and it returns, refused; the bucket holds as many tokens
    after it as before, not one less. *)
Lemma refused_operation_takes_no_token :
  ~ (forall (w w' : @World EB MemDB.sqldb) (r : ptr) (f : RateLimitedDB)
            (o : Op) (ret : Ret),
       facades w !! r = Some f ->
       gated o = true ->
       run_op r o w = Ok ret w' ->
       Qeq (tokens_at (limiter f) w' (now w'))
           (tokens_at (limiter f) w (now w') - 1)).
Proof.
  intros H.
  specialize (H (exhausted EB)
                (world_after (run_op 1 (OpQueryContext ctx query [])) (exhausted EB))
                1 facade (OpQueryContext ctx query [])
                (RetRows (None, Some (errorString
                                        "rate: Wait(n=1) would exceed context deadline")))
                eq_refl eq_refl eq_refl).
  unfold Qeq in H. vm_compute in H. discriminate H.
Qed.

End RequestRuns.
